(** * DALI: optical-flow GPU buffer wrapper and lazy NPP symbol resolver

    A shallow embedding of

    - [dali/operators/sequence/optical_flow/optical_flow_impl/optical_flow_buffer.h]
      (class [OpticalFlowBuffer]), and
    - [dali/operators/util/npp_wrap.cc]
      ([loadNppcLibrary], [loadNppiccLibrary], [NppLoadSymbol],
      [nppIsSymbolAvailable]),

    together with the properties their specification states about them.

    Both pieces of code talk to something outside the program (the vendor's
    optical-flow driver, the dynamic linker).  The outside is a state of an
    arbitrary type, the entry points into it are functions on that state, and
    every call the program makes through them is appended to a log kept next
    to it, so that "exactly one call" and "no call" are statements about the
    log. *)

From stdpp Require Import gmap strings list pretty.
From Stdlib Require Import ZArith Lia.

(** ** Computations with state and abrupt exit

    A C++ function body either runs to its [return] or leaves abruptly
    (a [throw], [std::terminate]).  [E] is the type of abrupt exits. *)

Inductive Outcome (E A : Type) : Type :=
| Returned (a : A)
| Aborted (e : E).

Arguments Returned {E A} a.
Arguments Aborted {E A} e.

Definition M (S E A : Type) : Type := S -> Outcome E A * S.

Definition ret {S E A} (a : A) : M S E A := fun s => (Returned a, s).

Definition abort {S E A} (e : E) : M S E A := fun s => (Aborted e, s).

Definition bind {S E A B} (m : M S E A) (k : A -> M S E B) : M S E B :=
  fun s =>
    match m s with
    | (Returned a, s') => k a s'
    | (Aborted e, s') => (Aborted e, s')
    end.

Definition gets {S E A} (f : S -> A) : M S E A := fun s => (Returned (f s), s).

Definition modify {S E} (f : S -> S) : M S E unit := fun s => (Returned tt, f s).

Notation "'let*' x ':=' m 'in' k" := (bind m (fun x => k))
  (at level 10, x pattern, m at level 100, k at level 200).

Notation "m ';;' k" := (bind m (fun _ => k))
  (at level 100, k at level 200, right associativity).

(** ** The optical-flow buffer *)

Module OpticalFlow.

Local Open Scope Z_scope.

(** Opaque vendor handles and the device pointer are machine words. *)
Definition NvOFHandle := Z.
Definition NvOFGPUBufferHandle := Z.
Definition CUdeviceptr := Z.

(** [size_t] and [uint32_t] values are integers in their range; the only
    conversion that changes a value is the narrowing one. *)
Definition size_t_modulus : Z := 2 ^ 64.
Definition uint32_modulus : Z := 2 ^ 32.

(** [static_cast<uint32_t>(v)] for an unsigned [v]. *)
Definition static_cast_uint32 (v : Z) : Z := v mod uint32_modulus.

(** Modelled from the spec: the vendor headers (nvOpticalFlowCommon.h,
    nvOpticalFlowCuda.h) are not part of the sources at hand.  A status code
    is the integer value of the C enumerator, "success" being [NV_OF_SUCCESS];
    format and usage are tags, kept as the enumerators' integer values. *)
Definition NV_OF_STATUS := Z.
Definition NV_OF_SUCCESS : NV_OF_STATUS := 0.
Definition NV_OF_BUFFER_FORMAT := Z.
Definition NV_OF_BUFFER_USAGE := Z.

(** Modelled from the spec: the buffer kinds of nvOpticalFlowCuda.h; the
    wrapper always declares its buffer as device-pointer-addressable. *)
Inductive NV_OF_CUDA_BUFFER_TYPE : Type :=
| NV_OF_CUDA_BUFFER_TYPE_UNDEFINED
| NV_OF_CUDA_BUFFER_TYPE_CUARRAY
| NV_OF_CUDA_BUFFER_TYPE_CUDEVICEPTR.

(** Modelled from the spec: the fields of the vendor's descriptor that
    [GenerateBufferDescriptor] assigns. *)
Record NV_OF_BUFFER_DESCRIPTOR : Type := {
  width : Z;          (* uint32_t *)
  height : Z;         (* uint32_t *)
  bufferUsage : NV_OF_BUFFER_USAGE;
  bufferFormat : NV_OF_BUFFER_FORMAT
}.

(** Modelled from the spec: per-plane byte strides as the vendor reports
    them; [strideInfo] is a C array indexed by the plane number. *)
Record NV_OF_BUFFER_STRIDE : Type := {
  strideXInBytes : Z; (* uint32_t *)
  strideYInBytes : Z  (* uint32_t *)
}.

Record NV_OF_CUDA_BUFFER_STRIDE_INFO : Type := {
  strideInfo : nat -> NV_OF_BUFFER_STRIDE;
  numPlanes : Z
}.

(** [struct Stride { size_t x, y; }] *)
Record Stride : Type := { x : Z; y : Z }.

(** The calls the wrapper can make through the function table. *)
Inductive VendorCall : Type :=
| Call_nvOFCreateGPUBufferCuda
    (hOf : NvOFHandle) (desc : NV_OF_BUFFER_DESCRIPTOR) (ty : NV_OF_CUDA_BUFFER_TYPE)
| Call_nvOFGPUBufferGetCUdeviceptr (h : NvOFGPUBufferHandle)
| Call_nvOFGPUBufferGetStrideInfo (h : NvOFGPUBufferHandle)
| Call_nvOFDestroyGPUBufferCuda (h : NvOFGPUBufferHandle).

Definition is_destroy (c : VendorCall) : bool :=
  match c with Call_nvOFDestroyGPUBufferCuda _ => true | _ => false end.

(** How a member function can leave abruptly: with an exception that
    propagates to the caller, or by [std::terminate()]. *)
Inductive failure_cause : Type :=
| VendorStatus (st : NV_OF_STATUS)
| EnforceFailed (msg : string).

Inductive Abrupt : Type :=
| UnrecoverableResourceError (cause : failure_cause)
| ProcessTerminated.

Section Buffer.

(** The state of the vendor's driver and device. *)
Context {Driver : Type}.

(** Modelled from the spec: the four entries of
    [NV_OF_CUDA_API_FUNCTION_LIST] the wrapper uses.  An entry is a C
    function: it reads and changes the driver; what it stores through an
    out-parameter is returned next to its status.  The descriptor is passed
    by pointer-to-const, so the callee gets its value. *)
Record NV_OF_CUDA_API_FUNCTION_LIST : Type := {
  nvOFCreateGPUBufferCuda :
    NvOFHandle -> NV_OF_BUFFER_DESCRIPTOR -> NV_OF_CUDA_BUFFER_TYPE ->
    Driver -> NV_OF_STATUS * NvOFGPUBufferHandle * Driver;
  nvOFGPUBufferGetCUdeviceptr :
    NvOFGPUBufferHandle -> Driver -> CUdeviceptr * Driver;
  nvOFGPUBufferGetStrideInfo :
    NvOFGPUBufferHandle -> Driver ->
    NV_OF_STATUS * NV_OF_CUDA_BUFFER_STRIDE_INFO * Driver;
  nvOFDestroyGPUBufferCuda :
    NvOFGPUBufferHandle -> Driver -> NV_OF_STATUS * Driver
}.

(** What the process can observe outside the object itself. *)
Record Process : Type := {
  driver : Driver;
  calls : list VendorCall;   (* vendor calls made so far, oldest first *)
  cerr : list string         (* lines written to std::cerr *)
}.

Definition log_call (c : VendorCall) (d : Driver) (p : Process) : Process :=
  {| driver := d; calls := calls p ++ [c]; cerr := cerr p |}.

Definition Op (A : Type) : Type := M Process Abrupt A.

(** A call through a function pointer of the table. *)
Definition call_create (fl : NV_OF_CUDA_API_FUNCTION_LIST) (hOf : NvOFHandle)
    (desc : NV_OF_BUFFER_DESCRIPTOR) (ty : NV_OF_CUDA_BUFFER_TYPE)
  : Op (NV_OF_STATUS * NvOFGPUBufferHandle) :=
  fun p =>
    let '(st, h, d) := nvOFCreateGPUBufferCuda fl hOf desc ty (driver p) in
    (Returned (st, h), log_call (Call_nvOFCreateGPUBufferCuda hOf desc ty) d p).

Definition call_get_ptr (fl : NV_OF_CUDA_API_FUNCTION_LIST) (h : NvOFGPUBufferHandle)
  : Op CUdeviceptr :=
  fun p =>
    let '(ptr, d) := nvOFGPUBufferGetCUdeviceptr fl h (driver p) in
    (Returned ptr, log_call (Call_nvOFGPUBufferGetCUdeviceptr h) d p).

Definition call_get_stride_info (fl : NV_OF_CUDA_API_FUNCTION_LIST)
    (h : NvOFGPUBufferHandle) : Op (NV_OF_STATUS * NV_OF_CUDA_BUFFER_STRIDE_INFO) :=
  fun p =>
    let '(st, info, d) := nvOFGPUBufferGetStrideInfo fl h (driver p) in
    (Returned (st, info), log_call (Call_nvOFGPUBufferGetStrideInfo h) d p).

Definition call_destroy (fl : NV_OF_CUDA_API_FUNCTION_LIST) (h : NvOFGPUBufferHandle)
  : Op NV_OF_STATUS :=
  fun p =>
    let '(st, d) := nvOFDestroyGPUBufferCuda fl h (driver p) in
    (Returned st, log_call (Call_nvOFDestroyGPUBufferCuda h) d p).

Definition write_cerr (line : string) : Op unit :=
  modify (fun p => {| driver := driver p; calls := calls p; cerr := cerr p ++ [line] |}).

(** Modelled from the spec: the macro [CUDA_CALL] (dali/core, not among the
    sources at hand) - "fail with an unrecoverable-resource error if the call
    does not report success". *)
Definition CUDA_CALL (st : NV_OF_STATUS) : Op unit :=
  if Z.eqb st NV_OF_SUCCESS then ret tt
  else abort (UnrecoverableResourceError (VendorStatus st)).

(** Modelled from the spec: the macro [DALI_ENFORCE] (dali/core/error_handling.h,
    not among the sources at hand) - the condition must hold, otherwise
    construction fails with an unrecoverable-resource error carrying the
    message. *)
Definition DALI_ENFORCE (cond : bool) (msg : string) : Op unit :=
  if cond then ret tt
  else abort (UnrecoverableResourceError (EnforceFailed msg)).

(** The data members, in declaration order. *)
Record OpticalFlowBuffer : Type := {
  of_inst_ : NV_OF_CUDA_API_FUNCTION_LIST;
  descriptor_ : NV_OF_BUFFER_DESCRIPTOR;
  handle_ : NvOFGPUBufferHandle;
  ptr_ : CUdeviceptr;
  stride_ : Stride
}.

(** [GenerateBufferDescriptor(width, height, format, usage)] *)
Definition GenerateBufferDescriptor (width height : Z) (format : NV_OF_BUFFER_FORMAT)
    (usage : NV_OF_BUFFER_USAGE) : NV_OF_BUFFER_DESCRIPTOR :=
  {| height := static_cast_uint32 height;
     width := static_cast_uint32 width;
     bufferFormat := format;
     bufferUsage := usage |}.

(** The constructor.  It returns the object it has built; when it leaves by
    an exception there is no object (and, as C++ has it, the destructor of
    the object under construction is not run). *)
Definition OpticalFlowBuffer_ctor (of_handle : NvOFHandle) (width height : Z)
    (function_list : NV_OF_CUDA_API_FUNCTION_LIST)
    (usage : NV_OF_BUFFER_USAGE) (format : NV_OF_BUFFER_FORMAT)
  : Op OpticalFlowBuffer :=
  let of_inst := function_list in
  let descriptor := GenerateBufferDescriptor width height format usage in
  (* Buffer alloc *)
  let* (st, handle) :=
    call_create of_inst of_handle descriptor NV_OF_CUDA_BUFFER_TYPE_CUDEVICEPTR in
  CUDA_CALL st ;;
  let* ptr := call_get_ptr of_inst handle in
  DALI_ENFORCE (negb (Z.eqb ptr 0)) "Invalid pointer" ;;
  (* Assigning stride *)
  let* (st', stride_info) := call_get_stride_info of_inst handle in
  CUDA_CALL st' ;;
  ret {| of_inst_ := of_inst;
         descriptor_ := descriptor;
         handle_ := handle;
         ptr_ := ptr;
         stride_ := {| x := strideXInBytes (strideInfo stride_info 0%nat);
                       y := strideYInBytes (strideInfo stride_info 0%nat) |} |}.

(** A non-static member function runs on the object and the process: it may
    assign to the data members as well as act on the outside. *)
Definition Method (A : Type) : Type := M (OpticalFlowBuffer * Process) Abrupt A.

Definition member {A} (f : OpticalFlowBuffer -> A) : Method A :=
  gets (fun s => f (fst s)).

Definition outside {A} (op : Op A) : Method A :=
  fun s => let '(r, p) := op (snd s) in (r, (fst s, p)).

(** The destructor. *)
Definition OpticalFlowBuffer_dtor : Method unit :=
  let* inst := member of_inst_ in
  let* h := member handle_ in
  let* err := outside (call_destroy inst h) in
  if negb (Z.eqb err NV_OF_SUCCESS) then
    outside (write_cerr "Fatal error: failed to destroy optical flow CUDA buffer") ;;
    abort ProcessTerminated
  else ret tt.

(** The accessors. *)
Definition GetDescriptor : Method NV_OF_BUFFER_DESCRIPTOR := member descriptor_.
Definition GetHandle : Method NvOFGPUBufferHandle := member handle_.
Definition GetPtr : Method CUdeviceptr := member ptr_.
Definition GetStride : Method Stride := member stride_.

(** A client can only reach the object through the four accessors; a
    sequence of accessor calls is run left to right. *)
Inductive Accessor : Type :=
| A_GetDescriptor | A_GetHandle | A_GetPtr | A_GetStride.

Inductive Observed : Type :=
| O_Descriptor (d : NV_OF_BUFFER_DESCRIPTOR)
| O_Handle (h : NvOFGPUBufferHandle)
| O_Ptr (ptr : CUdeviceptr)
| O_Stride (s : Stride).

Definition call_accessor (a : Accessor) : Method Observed :=
  match a with
  | A_GetDescriptor => let* d := GetDescriptor in ret (O_Descriptor d)
  | A_GetHandle => let* h := GetHandle in ret (O_Handle h)
  | A_GetPtr => let* ptr := GetPtr in ret (O_Ptr ptr)
  | A_GetStride => let* s := GetStride in ret (O_Stride s)
  end.

Fixpoint call_accessors (l : list Accessor) : Method (list Observed) :=
  match l with
  | [] => ret []
  | a :: l' =>
      let* o := call_accessor a in
      let* os := call_accessors l' in
      ret (o :: os)
  end.

(** The value of the data member an accessor reads. *)
Definition member_value (this : OpticalFlowBuffer) (a : Accessor) : Observed :=
  match a with
  | A_GetDescriptor => O_Descriptor (descriptor_ this)
  | A_GetHandle => O_Handle (handle_ this)
  | A_GetPtr => O_Ptr (ptr_ this)
  | A_GetStride => O_Stride (stride_ this)
  end.

(** *** What the constructor does, case by case *)

Section Construction.

Variables (of_handle : NvOFHandle) (w h : Z) (fl : NV_OF_CUDA_API_FUNCTION_LIST).
Variables (usage : NV_OF_BUFFER_USAGE) (format : NV_OF_BUFFER_FORMAT).
Variable p : Process.

(** The three vendor calls as the constructor makes them, each on the driver
    state the previous one left. *)
Let desc := GenerateBufferDescriptor w h format usage.
Let created :=
  nvOFCreateGPUBufferCuda fl of_handle desc NV_OF_CUDA_BUFFER_TYPE_CUDEVICEPTR (driver p).
Let pointed := nvOFGPUBufferGetCUdeviceptr fl (created.1.2) (created.2).
Let strided := nvOFGPUBufferGetStrideInfo fl (created.1.2) (pointed.2).

Let create_call := Call_nvOFCreateGPUBufferCuda of_handle desc NV_OF_CUDA_BUFFER_TYPE_CUDEVICEPTR.
Let ptr_call := Call_nvOFGPUBufferGetCUdeviceptr (created.1.2).
Let stride_call := Call_nvOFGPUBufferGetStrideInfo (created.1.2).

Definition ctor_result : Outcome Abrupt OpticalFlowBuffer * Process :=
  if negb (Z.eqb created.1.1 NV_OF_SUCCESS) then
    (Aborted (UnrecoverableResourceError (VendorStatus created.1.1)),
     {| driver := created.2; calls := calls p ++ [create_call]; cerr := cerr p |})
  else if Z.eqb pointed.1 0 then
    (Aborted (UnrecoverableResourceError (EnforceFailed "Invalid pointer")),
     {| driver := pointed.2; calls := calls p ++ [create_call; ptr_call]; cerr := cerr p |})
  else if negb (Z.eqb strided.1.1 NV_OF_SUCCESS) then
    (Aborted (UnrecoverableResourceError (VendorStatus strided.1.1)),
     {| driver := strided.2;
        calls := calls p ++ [create_call; ptr_call; stride_call]; cerr := cerr p |})
  else
    (Returned {| of_inst_ := fl; descriptor_ := desc; handle_ := created.1.2;
                 ptr_ := pointed.1;
                 stride_ := {| x := strideXInBytes (strideInfo strided.1.2 0%nat);
                               y := strideYInBytes (strideInfo strided.1.2 0%nat) |} |},
     {| driver := strided.2;
        calls := calls p ++ [create_call; ptr_call; stride_call]; cerr := cerr p |}).

Lemma ctor_unfold :
  OpticalFlowBuffer_ctor of_handle w h fl usage format p = ctor_result.
Proof.
  unfold ctor_result.
  subst strided pointed create_call ptr_call stride_call. subst created.
  unfold OpticalFlowBuffer_ctor, bind, call_create, log_call. fold desc.
  destruct (nvOFCreateGPUBufferCuda fl of_handle desc _ (driver p))
    as [[st hdl] d1]; simpl.
  unfold CUDA_CALL at 1. destruct (Z.eqb st NV_OF_SUCCESS); simpl; [|done].
  unfold call_get_ptr, log_call; simpl.
  destruct (nvOFGPUBufferGetCUdeviceptr fl hdl d1) as [ptr d2]; simpl.
  unfold DALI_ENFORCE. destruct (Z.eqb ptr 0); simpl.
  { by rewrite <- app_assoc. }
  unfold call_get_stride_info, log_call; simpl.
  destruct (nvOFGPUBufferGetStrideInfo fl hdl d2) as [[st' info] d3]; simpl.
  unfold CUDA_CALL. destruct (Z.eqb st' NV_OF_SUCCESS); simpl;
    by rewrite <- !app_assoc.
Qed.

End Construction.

(** Accessor calls leave the object and the process as they were and
    return the data members. *)
Lemma call_accessor_member (a : Accessor) (s : OpticalFlowBuffer * Process) :
  call_accessor a s = (Returned (member_value s.1 a), s).
Proof. by destruct a. Qed.

Lemma call_accessors_members (l : list Accessor) (s : OpticalFlowBuffer * Process) :
  call_accessors l s = (Returned (map (member_value s.1) l), s).
Proof.
  induction l as [|a l IH]; [done|].
  cbn [call_accessors map]. unfold bind.
  by rewrite call_accessor_member, IH.
Qed.

(** *** The destructor *)

(** C1.  The destructor makes exactly one vendor call, the release of the
    object's handle through the object's own function table.  When that call
    reports success the destructor returns, writing nothing to [std::cerr];
    when it reports any other status the destructor ends in
    [std::terminate()] - not in a return and not in an exception. *)
Theorem dtor_releases_once_and_terminates_on_failure
    (this : OpticalFlowBuffer) (p : Process) :
  let released := nvOFDestroyGPUBufferCuda (of_inst_ this) (handle_ this) (driver p) in
  let out := OpticalFlowBuffer_dtor (this, p) in
  calls out.2.2 = calls p ++ [Call_nvOFDestroyGPUBufferCuda (handle_ this)]
  /\ driver out.2.2 = released.2
  /\ out.1 = (if decide (released.1 = NV_OF_SUCCESS)
              then Returned tt else Aborted ProcessTerminated)
  /\ cerr out.2.2 =
       (if decide (released.1 = NV_OF_SUCCESS) then cerr p
        else cerr p ++ ["Fatal error: failed to destroy optical flow CUDA buffer"]).
Proof.
  cbv zeta.
  unfold OpticalFlowBuffer_dtor, bind, member, gets, outside, call_destroy, log_call.
  cbn [fst snd].
  destruct (nvOFDestroyGPUBufferCuda (of_inst_ this) (handle_ this) (driver p))
    as [st d] eqn:Hd.
  cbn [fst snd].
  destruct (decide (st = NV_OF_SUCCESS)) as [->|Hne].
  - by cbn.
  - apply Z.eqb_neq in Hne. rewrite Hne. by cbn.
Qed.

(** *** The constructor *)

(** C2.  When the create call reports success and the device pointer
    retrieved from the new handle is zero, the constructor leaves by the
    exception of the failed check: no object is returned, and the only vendor
    calls it has made are the create call and the pointer query - no destroy
    call for the handle. *)
Theorem ctor_null_device_pointer_throws_without_destroy
    (of_handle : NvOFHandle) (w h : Z) (fl : NV_OF_CUDA_API_FUNCTION_LIST)
    (usage : NV_OF_BUFFER_USAGE) (format : NV_OF_BUFFER_FORMAT) (p : Process) :
  let desc := GenerateBufferDescriptor w h format usage in
  let created :=
    nvOFCreateGPUBufferCuda fl of_handle desc NV_OF_CUDA_BUFFER_TYPE_CUDEVICEPTR
      (driver p) in
  let pointed := nvOFGPUBufferGetCUdeviceptr fl created.1.2 created.2 in
  created.1.1 = NV_OF_SUCCESS ->
  pointed.1 = 0 ->
  let out := OpticalFlowBuffer_ctor of_handle w h fl usage format p in
  out.1 = Aborted (UnrecoverableResourceError (EnforceFailed "Invalid pointer"))
  /\ (forall buf, out.1 <> Returned buf)
  /\ calls out.2 =
       calls p ++
       [Call_nvOFCreateGPUBufferCuda of_handle desc NV_OF_CUDA_BUFFER_TYPE_CUDEVICEPTR;
        Call_nvOFGPUBufferGetCUdeviceptr created.1.2]
  /\ List.filter is_destroy (calls out.2) = List.filter is_destroy (calls p).
Proof.
  cbv zeta. intros Hst Hptr.
  rewrite ctor_unfold. unfold ctor_result. cbv zeta.
  rewrite Hst, Hptr. cbn [Z.eqb negb fst snd calls NV_OF_SUCCESS].
  repeat split; [done|].
  rewrite List.filter_app. cbn. by rewrite app_nil_r.
Qed.

(** C7.  On a constructed object [GetStride()] returns the pair of plane-0
    strides the vendor's stride-info call reported to the constructor, the
    numbers as reported; it does so in every process state and after every
    sequence of accessor calls. *)
Theorem GetStride_is_reported_plane0_stride
    (of_handle : NvOFHandle) (w h : Z) (fl : NV_OF_CUDA_API_FUNCTION_LIST)
    (usage : NV_OF_BUFFER_USAGE) (format : NV_OF_BUFFER_FORMAT)
    (p p' : Process) (buf : OpticalFlowBuffer) :
  OpticalFlowBuffer_ctor of_handle w h fl usage format p = (Returned buf, p') ->
  let desc := GenerateBufferDescriptor w h format usage in
  let created :=
    nvOFCreateGPUBufferCuda fl of_handle desc NV_OF_CUDA_BUFFER_TYPE_CUDEVICEPTR
      (driver p) in
  let pointed := nvOFGPUBufferGetCUdeviceptr fl created.1.2 created.2 in
  let strided := nvOFGPUBufferGetStrideInfo fl created.1.2 pointed.2 in
  let reported := strideInfo strided.1.2 0%nat in
  forall (l : list Accessor) (q : Process),
    let after := (call_accessors l (buf, q)).2 in
    GetStride after =
      (Returned {| x := strideXInBytes reported; y := strideYInBytes reported |}, after).
Proof.
  rewrite ctor_unfold. unfold ctor_result. cbv zeta. intros Hctor l q.
  rewrite call_accessors_members. cbn [fst snd].
  unfold GetStride, member, gets. cbn [fst].
  repeat match type of Hctor with
         | (if ?c then _ else _) = _ => destruct c; [discriminate Hctor|]
         end.
  by injection Hctor as <- _.
Qed.

(** C8.  Two successful constructions from equal (width, height, format,
    usage) - whatever the session handles, function tables and process
    states - hold equal descriptors, namely [GenerateBufferDescriptor] of
    the four inputs; after any sequence of accessor calls the stored value
    is still that one, and [GetDescriptor()] returns it. *)
Theorem descriptor_is_function_of_four_inputs_and_fixed
    (w h : Z) (usage : NV_OF_BUFFER_USAGE) (format : NV_OF_BUFFER_FORMAT)
    (of_handle1 of_handle2 : NvOFHandle) (fl1 fl2 : NV_OF_CUDA_API_FUNCTION_LIST)
    (p1 p1' p2 p2' : Process) (buf1 buf2 : OpticalFlowBuffer) :
  OpticalFlowBuffer_ctor of_handle1 w h fl1 usage format p1 = (Returned buf1, p1') ->
  OpticalFlowBuffer_ctor of_handle2 w h fl2 usage format p2 = (Returned buf2, p2') ->
  forall (l1 l2 : list Accessor) (q1 q2 : Process),
    let after1 := (call_accessors l1 (buf1, q1)).2 in
    let after2 := (call_accessors l2 (buf2, q2)).2 in
    descriptor_ buf1 = GenerateBufferDescriptor w h format usage
    /\ descriptor_ buf2 = descriptor_ buf1
    /\ descriptor_ after1.1 = descriptor_ buf1
    /\ GetDescriptor after1 = (Returned (descriptor_ buf1), after1)
    /\ GetDescriptor after2 = (Returned (descriptor_ buf1), after2).
Proof.
  rewrite !ctor_unfold. unfold ctor_result. cbv zeta. intros H1 H2 l1 l2 q1 q2.
  rewrite !call_accessors_members. cbn [fst snd].
  unfold GetDescriptor, member, gets. cbn [fst].
  repeat match type of H1 with
         | (if ?c then _ else _) = _ => destruct c; [discriminate H1|]
         end.
  repeat match type of H2 with
         | (if ?c then _ else _) = _ => destruct c; [discriminate H2|]
         end.
  injection H1 as <- _. injection H2 as <- _. by cbn.
Qed.

(** C9.  The descriptor records width and height reduced modulo 2^32: for
    [size_t] inputs the recorded dimension agrees with the input exactly when
    the input is below 2^32.  No check precedes the narrowing: the
    constructor's first vendor call already carries the reduced values. *)
Theorem descriptor_dimensions_wrap_modulo_2_32
    (w h : Z) (usage : NV_OF_BUFFER_USAGE) (format : NV_OF_BUFFER_FORMAT) :
  0 <= w < size_t_modulus ->
  0 <= h < size_t_modulus ->
  let d := GenerateBufferDescriptor w h format usage in
  width d = w mod 2 ^ 32 /\ height d = h mod 2 ^ 32
  /\ (width d = w <-> w < 2 ^ 32)
  /\ (height d = h <-> h < 2 ^ 32)
  /\ forall (of_handle : NvOFHandle) (fl : NV_OF_CUDA_API_FUNCTION_LIST) (p : Process),
       exists rest,
         calls (OpticalFlowBuffer_ctor of_handle w h fl usage format p).2 =
           calls p ++
           Call_nvOFCreateGPUBufferCuda of_handle
             {| width := w mod 2 ^ 32; height := h mod 2 ^ 32;
                bufferUsage := usage; bufferFormat := format |}
             NV_OF_CUDA_BUFFER_TYPE_CUDEVICEPTR :: rest.
Proof.
  intros Hw Hh. cbv zeta. cbn [width height GenerateBufferDescriptor].
  unfold static_cast_uint32, uint32_modulus, size_t_modulus in *.
  split; [done|]. split; [done|].
  split; [|split].
  - split; intros H.
    + pose proof (Z.mod_pos_bound w (2 ^ 32)). lia.
    + apply Z.mod_small. lia.
  - split; intros H.
    + pose proof (Z.mod_pos_bound h (2 ^ 32)). lia.
    + apply Z.mod_small. lia.
  - intros of_handle fl p. rewrite ctor_unfold. unfold ctor_result. cbv zeta.
    unfold GenerateBufferDescriptor, static_cast_uint32, uint32_modulus.
    repeat match goal with
           | |- context [if ?c then _ else _] => destruct c
           end; eexists; cbn [snd calls]; reflexivity.
Qed.

(** *** The accessors *)

(** C10.  Any sequence of accessor calls on an object returns, call by
    call, the values of the data members, and leaves both the object (every
    data member) and the process (driver state, log of vendor calls,
    [std::cerr]) exactly as they were: no vendor call is made. *)
Theorem accessors_are_pure_observers
    (this : OpticalFlowBuffer) (p : Process) (l : list Accessor) :
  call_accessors l (this, p) = (Returned (map (member_value this) l), (this, p))
  /\ calls (call_accessors l (this, p)).2.2 = calls p.
Proof. by rewrite call_accessors_members. Qed.

(** *** Construction followed by destruction *)



(** *** The outcomes of construction *)

(** X1.  The constructor returns an object exactly when the create call
    reports success, the device pointer of the new handle is not zero, and
    the stride-info call reports success; in every other case it throws. *)
Theorem ctor_returns_iff_all_three_calls_succeed
    (of_handle : NvOFHandle) (w h : Z) (fl : NV_OF_CUDA_API_FUNCTION_LIST)
    (usage : NV_OF_BUFFER_USAGE) (format : NV_OF_BUFFER_FORMAT) (p : Process) :
  let desc := GenerateBufferDescriptor w h format usage in
  let created :=
    nvOFCreateGPUBufferCuda fl of_handle desc NV_OF_CUDA_BUFFER_TYPE_CUDEVICEPTR
      (driver p) in
  let pointed := nvOFGPUBufferGetCUdeviceptr fl created.1.2 created.2 in
  let strided := nvOFGPUBufferGetStrideInfo fl created.1.2 pointed.2 in
  (exists buf p',
     OpticalFlowBuffer_ctor of_handle w h fl usage format p = (Returned buf, p'))
  <-> (created.1.1 = NV_OF_SUCCESS /\ pointed.1 <> 0 /\ strided.1.1 = NV_OF_SUCCESS).
Proof.
  cbv zeta. rewrite ctor_unfold. unfold ctor_result. cbv zeta.
  destruct (Z.eqb_spec
              (nvOFCreateGPUBufferCuda fl of_handle
                 (GenerateBufferDescriptor w h format usage)
                 NV_OF_CUDA_BUFFER_TYPE_CUDEVICEPTR (driver p)).1.1 NV_OF_SUCCESS)
    as [Hc|Hc]; cbn [negb].
  2: { split; [by intros (buf & p' & [=])|]. by intros [? _]. }
  match goal with |- context [Z.eqb ?a 0] => destruct (Z.eqb_spec a 0) as [Hp|Hp] end.
  { split; [by intros (buf & p' & [=])|]. by intros (_ & ? & _). }
  match goal with
  | |- context [Z.eqb ?a NV_OF_SUCCESS] =>
      destruct (Z.eqb_spec a NV_OF_SUCCESS) as [Hs|Hs]
  end; cbn [negb].
  - split; [done|]. intros _. eauto.
  - split; [by intros (buf & p' & [=])|]. by intros (_ & _ & ?).
Qed.

(** X2.  An object the constructor has returned holds the function table
    it was given, the handle the create call stored, and the device pointer
    the vendor returned for that handle, which is not zero; [GetHandle()] and
    [GetPtr()] return these two, in any process state. *)
Theorem constructed_object_holds_handle_and_nonzero_pointer
    (of_handle : NvOFHandle) (w h : Z) (fl : NV_OF_CUDA_API_FUNCTION_LIST)
    (usage : NV_OF_BUFFER_USAGE) (format : NV_OF_BUFFER_FORMAT)
    (p p' : Process) (buf : OpticalFlowBuffer) :
  OpticalFlowBuffer_ctor of_handle w h fl usage format p = (Returned buf, p') ->
  let desc := GenerateBufferDescriptor w h format usage in
  let created :=
    nvOFCreateGPUBufferCuda fl of_handle desc NV_OF_CUDA_BUFFER_TYPE_CUDEVICEPTR
      (driver p) in
  let pointed := nvOFGPUBufferGetCUdeviceptr fl created.1.2 created.2 in
  of_inst_ buf = fl
  /\ pointed.1 <> 0
  /\ forall q : Process,
       GetHandle (buf, q) = (Returned created.1.2, (buf, q))
       /\ GetPtr (buf, q) = (Returned pointed.1, (buf, q)).
Proof.
  rewrite ctor_unfold. unfold ctor_result. cbv zeta. intros Hctor.
  destruct (negb (Z.eqb _ NV_OF_SUCCESS)); [discriminate Hctor|].
  destruct (Z.eqb _ 0) eqn:Hptr; [discriminate Hctor|].
  destruct (negb (Z.eqb _ NV_OF_SUCCESS)); [discriminate Hctor|].
  injection Hctor as <- _. cbn [of_inst_].
  split; [done|]. split; [by apply Z.eqb_neq|]. done.
Qed.

(** X3.  When the create call reports a failure the constructor throws
    with that status after this one vendor call: it queries neither pointer
    nor strides and issues no destroy call. *)
Theorem ctor_create_failure_throws_after_one_call
    (of_handle : NvOFHandle) (w h : Z) (fl : NV_OF_CUDA_API_FUNCTION_LIST)
    (usage : NV_OF_BUFFER_USAGE) (format : NV_OF_BUFFER_FORMAT) (p : Process) :
  let desc := GenerateBufferDescriptor w h format usage in
  let created :=
    nvOFCreateGPUBufferCuda fl of_handle desc NV_OF_CUDA_BUFFER_TYPE_CUDEVICEPTR
      (driver p) in
  created.1.1 <> NV_OF_SUCCESS ->
  let out := OpticalFlowBuffer_ctor of_handle w h fl usage format p in
  out.1 = Aborted (UnrecoverableResourceError (VendorStatus created.1.1))
  /\ calls out.2 =
       calls p ++
       [Call_nvOFCreateGPUBufferCuda of_handle desc NV_OF_CUDA_BUFFER_TYPE_CUDEVICEPTR]
  /\ driver out.2 = created.2.
Proof.
  cbv zeta. intros Hst. rewrite ctor_unfold. unfold ctor_result. cbv zeta.
  apply Z.eqb_neq in Hst. by rewrite Hst.
Qed.

(** X4.  When the buffer has been created and its device pointer is not
    zero but the stride-info call reports a failure, the constructor throws
    with that status.  It has then made the create call, the pointer query
    and the stride query, and no destroy call: the buffer the vendor created
    is not released, and no object exists whose destructor would release
    it. *)
Theorem ctor_stride_failure_throws_without_destroy
    (of_handle : NvOFHandle) (w h : Z) (fl : NV_OF_CUDA_API_FUNCTION_LIST)
    (usage : NV_OF_BUFFER_USAGE) (format : NV_OF_BUFFER_FORMAT) (p : Process) :
  let desc := GenerateBufferDescriptor w h format usage in
  let created :=
    nvOFCreateGPUBufferCuda fl of_handle desc NV_OF_CUDA_BUFFER_TYPE_CUDEVICEPTR
      (driver p) in
  let pointed := nvOFGPUBufferGetCUdeviceptr fl created.1.2 created.2 in
  let strided := nvOFGPUBufferGetStrideInfo fl created.1.2 pointed.2 in
  created.1.1 = NV_OF_SUCCESS ->
  pointed.1 <> 0 ->
  strided.1.1 <> NV_OF_SUCCESS ->
  let out := OpticalFlowBuffer_ctor of_handle w h fl usage format p in
  out.1 = Aborted (UnrecoverableResourceError (VendorStatus strided.1.1))
  /\ calls out.2 =
       calls p ++
       [Call_nvOFCreateGPUBufferCuda of_handle desc NV_OF_CUDA_BUFFER_TYPE_CUDEVICEPTR;
        Call_nvOFGPUBufferGetCUdeviceptr created.1.2;
        Call_nvOFGPUBufferGetStrideInfo created.1.2]
  /\ driver out.2 = strided.2.
Proof.
  cbv zeta. intros Hc Hp Hs. rewrite ctor_unfold. unfold ctor_result. cbv zeta.
  apply Z.eqb_neq in Hp, Hs. rewrite Hc, Hp, Hs. by cbn.
Qed.

(** X5.  Whatever the vendor does, the constructor neither terminates the
    process nor writes to [std::cerr]; its first vendor call is the create
    call, it makes at most two more, and none of its calls is a destroy
    call. *)
Theorem ctor_never_destroys_terminates_or_prints
    (of_handle : NvOFHandle) (w h : Z) (fl : NV_OF_CUDA_API_FUNCTION_LIST)
    (usage : NV_OF_BUFFER_USAGE) (format : NV_OF_BUFFER_FORMAT) (p : Process) :
  let out := OpticalFlowBuffer_ctor of_handle w h fl usage format p in
  out.1 <> Aborted ProcessTerminated
  /\ cerr out.2 = cerr p
  /\ exists rest,
       calls out.2 =
         calls p ++
         Call_nvOFCreateGPUBufferCuda of_handle
           (GenerateBufferDescriptor w h format usage)
           NV_OF_CUDA_BUFFER_TYPE_CUDEVICEPTR :: rest
       /\ (length rest <= 2)%nat
       /\ List.filter is_destroy rest = [].
Proof.
  cbv zeta. rewrite ctor_unfold. unfold ctor_result. cbv zeta.
  repeat match goal with
         | |- context [if ?c then _ else _] => destruct c
         end; cbn [fst snd calls cerr];
    (split; [done|]); (split; [done|]); eexists; (split; [reflexivity|]);
    cbn; split; (done || lia).
Qed.

End Buffer.

Arguments NV_OF_CUDA_API_FUNCTION_LIST : clear implicits.
Arguments Process : clear implicits.
Arguments OpticalFlowBuffer : clear implicits.
Arguments Op : clear implicits.
Arguments Method : clear implicits.

(** *** A vendor to run the wrapper against

    The driver state is the list of live buffer handles.  Creation hands out
    a fresh non-zero handle; the device pointer of handle [hd] is
    [device_base * hd] (so a zero base gives the "successful create, unusable
    buffer" case); plane 0 has a one-byte horizontal stride and a vertical
    stride of [pitch] bytes; destroying a handle that is not live fails. *)
Definition sample_stride_info (pitch : Z) : NV_OF_CUDA_BUFFER_STRIDE_INFO :=
  {| strideInfo := fun plane =>
       match plane with
       | O => {| strideXInBytes := 1; strideYInBytes := pitch |}
       | _ => {| strideXInBytes := 0; strideYInBytes := 0 |}
       end;
     numPlanes := 1 |}.

Definition sample_vendor (device_base pitch : Z) : NV_OF_CUDA_API_FUNCTION_LIST (list Z) :=
  {| nvOFCreateGPUBufferCuda := fun _ _ _ live =>
       let hd := 1 + Z.of_nat (length live) in (NV_OF_SUCCESS, hd, hd :: live);
     nvOFGPUBufferGetCUdeviceptr := fun hd live => (device_base * hd, live);
     nvOFGPUBufferGetStrideInfo := fun _ live =>
       (NV_OF_SUCCESS, sample_stride_info pitch, live);
     nvOFDestroyGPUBufferCuda := fun hd live =>
       if bool_decide (hd ∈ live)
       then (NV_OF_SUCCESS, List.filter (fun k => negb (Z.eqb k hd)) live)
       else (5, live) |}.

Definition fresh_process : Process (list Z) :=
  {| driver := []; calls := []; cerr := [] |}.

(** The whole life of one buffer on the sample vendor: one create, one
    pointer query, one stride query, then one destroy of the same handle. *)
Example sample_lifecycle :
  match OpticalFlowBuffer_ctor 7 640 480 (sample_vendor 4096 1024) 1 2 fresh_process with
  | (Returned buf, p) =>
      let out := OpticalFlowBuffer_dtor (buf, p) in
      out.1 = Returned tt /\ driver out.2.2 = []
      /\ List.filter is_destroy (calls out.2.2) = [Call_nvOFDestroyGPUBufferCuda 1]
      /\ length (calls out.2.2) = 4%nat
  | _ => False
  end.
Proof. vm_compute. by repeat split. Qed.

Lemma ctor_null_device_pointer_throws_without_destroy_witness :
  let out := OpticalFlowBuffer_ctor 7 640 480 (sample_vendor 0 1024) 1 2 fresh_process in
  out.1 = Aborted (UnrecoverableResourceError (EnforceFailed "Invalid pointer"))
  /\ (forall buf, out.1 <> Returned buf)
  /\ calls out.2 =
       [Call_nvOFCreateGPUBufferCuda 7 (GenerateBufferDescriptor 640 480 2 1)
          NV_OF_CUDA_BUFFER_TYPE_CUDEVICEPTR;
        Call_nvOFGPUBufferGetCUdeviceptr 1]
  /\ List.filter is_destroy (calls out.2) = [].
Proof.
  apply (ctor_null_device_pointer_throws_without_destroy
           7 640 480 (sample_vendor 0 1024) 1 2 fresh_process);
    reflexivity.
Defined.

Lemma GetStride_is_reported_plane0_stride_witness :
  exists buf p',
    OpticalFlowBuffer_ctor 7 640 480 (sample_vendor 4096 1024) 1 2 fresh_process
      = (Returned buf, p')
    /\ GetStride (call_accessors [A_GetPtr; A_GetStride; A_GetHandle] (buf, p')).2
       = (Returned {| x := 1; y := 1024 |}, (buf, p')).
Proof.
  eexists _, _. split; [reflexivity|].
  exact (GetStride_is_reported_plane0_stride
           7 640 480 (sample_vendor 4096 1024) 1 2 fresh_process _ _ eq_refl
           [A_GetPtr; A_GetStride; A_GetHandle] _).
Defined.

Lemma descriptor_is_function_of_four_inputs_and_fixed_witness :
  exists buf1 p1 buf2 p2,
    OpticalFlowBuffer_ctor 7 640 480 (sample_vendor 4096 1024) 1 2 fresh_process
      = (Returned buf1, p1)
    /\ OpticalFlowBuffer_ctor 9 640 480 (sample_vendor 512 2048) 1 2 fresh_process
      = (Returned buf2, p2)
    /\ descriptor_ buf2 = descriptor_ buf1
    /\ GetDescriptor (call_accessors [A_GetStride; A_GetDescriptor] (buf2, p2)).2
       = (Returned (GenerateBufferDescriptor 640 480 2 1), (buf2, p2)).
Proof.
  eexists _, _, _, _. split; [reflexivity|]. split; [reflexivity|].
  pose proof (descriptor_is_function_of_four_inputs_and_fixed
                640 480 1 2 7 9 (sample_vendor 4096 1024) (sample_vendor 512 2048)
                fresh_process _ fresh_process _ _ _ eq_refl eq_refl
                [] [A_GetStride; A_GetDescriptor] fresh_process
                (OpticalFlowBuffer_ctor 9 640 480 (sample_vendor 512 2048) 1 2
                   fresh_process).2) as H.
  cbv zeta in H. destruct H as (H1 & H2 & _ & _ & H5).
  split; [exact H2|]. rewrite <- H1. exact H5.
Defined.

Lemma descriptor_dimensions_wrap_modulo_2_32_witness :
  let d := GenerateBufferDescriptor (2 ^ 32 + 640) 480 2 1 in
  width d = 640 /\ height d = 480 /\ width d <> 2 ^ 32 + 640.
Proof.
  pose proof (descriptor_dimensions_wrap_modulo_2_32 (2 ^ 32 + 640) 480 1 2
                (Driver := unit)) as H.
  cbv zeta in *. unfold size_t_modulus in H.
  destruct H as (Hw & Hh & Hiff & _); [lia | lia |].
  split; [exact Hw|]. split; [exact Hh|].
  intros Heq. apply Hiff in Heq. lia.
Defined.

(** The sample vendor with the status of its create and stride-info calls
    chosen; a failing create allocates nothing and stores a null handle. *)
Definition scripted_vendor (create_status stride_status : NV_OF_STATUS)
    (device_base pitch : Z) : NV_OF_CUDA_API_FUNCTION_LIST (list Z) :=
  {| nvOFCreateGPUBufferCuda := fun _ _ _ live =>
       if Z.eqb create_status NV_OF_SUCCESS
       then let hd := 1 + Z.of_nat (length live) in (create_status, hd, hd :: live)
       else (create_status, 0, live);
     nvOFGPUBufferGetCUdeviceptr := fun hd live => (device_base * hd, live);
     nvOFGPUBufferGetStrideInfo := fun _ live =>
       (stride_status, sample_stride_info pitch, live);
     nvOFDestroyGPUBufferCuda := fun hd live =>
       if bool_decide (hd ∈ live)
       then (NV_OF_SUCCESS, List.filter (fun k => negb (Z.eqb k hd)) live)
       else (5, live) |}.

Lemma constructed_object_holds_handle_and_nonzero_pointer_witness :
  exists buf p',
    OpticalFlowBuffer_ctor 7 640 480 (sample_vendor 4096 1024) 1 2 fresh_process
      = (Returned buf, p')
    /\ of_inst_ buf = sample_vendor 4096 1024
    /\ GetHandle (buf, p') = (Returned 1, (buf, p'))
    /\ GetPtr (buf, p') = (Returned 4096, (buf, p')).
Proof.
  eexists _, _. split; [reflexivity|].
  destruct (constructed_object_holds_handle_and_nonzero_pointer
              7 640 480 (sample_vendor 4096 1024) 1 2 fresh_process _ _ eq_refl)
    as (Hfl & _ & Hget).
  split; [exact Hfl|]. exact (Hget _).
Defined.

Lemma ctor_create_failure_throws_after_one_call_witness :
  let out := OpticalFlowBuffer_ctor 7 640 480 (scripted_vendor 8 0 4096 1024) 1 2
               fresh_process in
  out.1 = Aborted (UnrecoverableResourceError (VendorStatus 8))
  /\ calls out.2 =
       [Call_nvOFCreateGPUBufferCuda 7 (GenerateBufferDescriptor 640 480 2 1)
          NV_OF_CUDA_BUFFER_TYPE_CUDEVICEPTR]
  /\ driver out.2 = [].
Proof.
  apply (ctor_create_failure_throws_after_one_call
           7 640 480 (scripted_vendor 8 0 4096 1024) 1 2 fresh_process).
  discriminate.
Defined.

(** On the scripted vendor the buffer created before the failing stride
    query is still live when the exception leaves the constructor. *)
Lemma ctor_stride_failure_throws_without_destroy_witness :
  let out := OpticalFlowBuffer_ctor 7 640 480 (scripted_vendor 0 11 4096 1024) 1 2
               fresh_process in
  out.1 = Aborted (UnrecoverableResourceError (VendorStatus 11))
  /\ calls out.2 =
       [Call_nvOFCreateGPUBufferCuda 7 (GenerateBufferDescriptor 640 480 2 1)
          NV_OF_CUDA_BUFFER_TYPE_CUDEVICEPTR;
        Call_nvOFGPUBufferGetCUdeviceptr 1;
        Call_nvOFGPUBufferGetStrideInfo 1]
  /\ driver out.2 = [1].
Proof.
  apply (ctor_stride_failure_throws_without_destroy
           7 640 480 (scripted_vendor 0 11 4096 1024) 1 2 fresh_process);
    [reflexivity | discriminate | discriminate].
Defined.


End OpticalFlow.

(** ** The NPP symbol resolver *)

Module NppWrap.

Local Open Scope Z_scope.

(** A [void*]: a library handle or the address of a symbol. *)
Definition pointer := Z.
Definition nullptr : pointer := 0.

(** [!p] for a pointer [p]. *)
Definition is_null (p : pointer) : bool := Z.eqb p nullptr.

Definition RTLD_NOW : Z := 2.

(** [std::runtime_error(what)] *)
Inductive exception : Type :=
| runtime_error (what : string).

(** The calls into the dynamic linker. *)
Inductive DlCall : Type :=
| Call_dlopen (filename : string) (flags : Z)
| Call_dlsym (handle : pointer) (symbol : string).

Definition __NppcLibName : string := "libnppc.so".
Definition __NppiccLibName : string := "libnppicc.so".

Section Resolver.

(** [CUDA_VERSION] is fixed when the file is compiled. *)
Variable CUDA_VERSION : Z.

Definition __NppcLibNameCuVer : string :=
  if Z.leb 11000 CUDA_VERSION then "libnppc.so.11" else "libnppc.so.10".
Definition __NppiccLibNameCuVer : string :=
  if Z.leb 11000 CUDA_VERSION then "libnppicc.so.11" else "libnppicc.so.10".

(** For the toolkits the switch distinguishes, CUDA 10 and CUDA 11, the
    suffix is the toolkit's major version. *)
Lemma versioned_names_carry_major_version :
  10000 <= CUDA_VERSION < 12000 ->
  (CUDA_VERSION / 1000 = 10
   /\ __NppcLibNameCuVer = "libnppc.so.10" /\ __NppiccLibNameCuVer = "libnppicc.so.10")
  \/ (CUDA_VERSION / 1000 = 11
      /\ __NppcLibNameCuVer = "libnppc.so.11" /\ __NppiccLibNameCuVer = "libnppicc.so.11").
Proof.
  intros Hv. unfold __NppcLibNameCuVer, __NppiccLibNameCuVer.
  destruct (Z.leb 11000 CUDA_VERSION) eqn:Hle.
  - apply Z.leb_le in Hle. right. split; [|done].
    symmetry. apply Z.div_unique with (r := CUDA_VERSION - 11000); lia.
  - apply Z.leb_gt in Hle. left. split; [|done].
    symmetry. apply Z.div_unique with (r := CUDA_VERSION - 10000); lia.
Qed.

(** The host outside the process (file system, dynamic linker): a state of
    any type, and the two primitives of <dlfcn.h> as functions on it. *)
Context {OS : Type}.
Variable dlopen : string -> Z -> OS -> pointer * OS.
Variable dlsym : pointer -> string -> OS -> pointer * OS.

(** The process-wide state: the function-local statics of [NppLoadSymbol]
    and of [nppIsSymbolAvailable], next to the host and the log of linker
    calls.  A function-local static is [None] until its initialiser has
    completed. *)
Record NppState : Type := {
  os : OS;
  nppcDrvLib : option pointer;
  nppiccDrvLib : option pointer;
  symbol_map : gmap string pointer;
  dl_calls : list DlCall          (* oldest first *)
}.

Definition Npp (A : Type) : Type := M NppState exception A.

Definition call_dlopen (filename : string) (flags : Z) : Npp pointer :=
  fun s =>
    let '(r, o) := dlopen filename flags (os s) in
    (Returned r,
     {| os := o; nppcDrvLib := nppcDrvLib s; nppiccDrvLib := nppiccDrvLib s;
        symbol_map := symbol_map s;
        dl_calls := dl_calls s ++ [Call_dlopen filename flags] |}).

Definition call_dlsym (handle : pointer) (symbol : string) : Npp pointer :=
  fun s =>
    let '(r, o) := dlsym handle symbol (os s) in
    (Returned r,
     {| os := o; nppcDrvLib := nppcDrvLib s; nppiccDrvLib := nppiccDrvLib s;
        symbol_map := symbol_map s;
        dl_calls := dl_calls s ++ [Call_dlsym handle symbol] |}).

Definition nppc_error : exception :=
  runtime_error
    "dlopen libnppc.so failed!. Please install CUDA toolkit or NPP python wheel.".

Definition nppicc_error : exception :=
  runtime_error
    "dlopen libnppicc.so failed!. Please install CUDA toolkit or NPP python wheel.".

Definition loadNppcLibrary : Npp pointer :=
  let* ret0 := call_dlopen __NppcLibNameCuVer RTLD_NOW in
  if is_null ret0 then
    let* ret1 := call_dlopen __NppcLibName RTLD_NOW in
    if is_null ret1 then abort nppc_error
    else ret ret1
  else ret ret0.

Definition loadNppiccLibrary : Npp pointer :=
  let* ret0 := call_dlopen __NppiccLibNameCuVer RTLD_NOW in
  if is_null ret0 then
    let* ret1 := call_dlopen __NppiccLibName RTLD_NOW in
    if is_null ret1 then abort nppicc_error
    else ret ret1
  else ret ret0.

(** [static T v = init();] inside a function: the initialiser runs when
    control passes the declaration and the variable is not initialised yet;
    if it throws, the variable stays uninitialised and the exception
    propagates. *)
Definition static_local {A} (get : NppState -> option A)
    (set : A -> NppState -> NppState) (init : Npp A) : Npp A :=
  let* current := gets get in
  match current with
  | Some v => ret v
  | None => let* v := init in modify (set v) ;; ret v
  end.

Definition set_nppcDrvLib (v : pointer) (s : NppState) : NppState :=
  {| os := os s; nppcDrvLib := Some v; nppiccDrvLib := nppiccDrvLib s;
     symbol_map := symbol_map s; dl_calls := dl_calls s |}.

Definition set_nppiccDrvLib (v : pointer) (s : NppState) : NppState :=
  {| os := os s; nppcDrvLib := nppcDrvLib s; nppiccDrvLib := Some v;
     symbol_map := symbol_map s; dl_calls := dl_calls s |}.

Definition NppLoadSymbol (name : string) : Npp pointer :=
  let* nppc := static_local nppcDrvLib set_nppcDrvLib loadNppcLibrary in
  let* nppicc := static_local nppiccDrvLib set_nppiccDrvLib loadNppiccLibrary in
  (* check processing library, core later if symbol not found *)
  let* found := (if is_null nppicc then ret nullptr else call_dlsym nppicc name) in
  if is_null found then
    (if is_null nppc then ret nullptr else call_dlsym nppc name)
  else ret found.

(** [symbol_map.insert({name, ptr})]: an [unordered_map] keeps the entry it
    has when the key is already present. *)
Definition symbol_map_insert (name : string) (ptr : pointer) (s : NppState) : NppState :=
  {| os := os s; nppcDrvLib := nppcDrvLib s; nppiccDrvLib := nppiccDrvLib s;
     symbol_map := match symbol_map s !! name with
                   | Some _ => symbol_map s
                   | None => <[name := ptr]> (symbol_map s)
                   end;
     dl_calls := dl_calls s |}.

(** The body of [nppIsSymbolAvailable] as one thread runs it.  The
    [lock_guard] on [symbol_mutex] matters only between threads; the thread
    system further down models it. *)
Definition nppIsSymbolAvailable (name : string) : Npp bool :=
  let* it := gets (fun s => symbol_map s !! name) in
  match it with
  | None =>
      let* ptr := NppLoadSymbol name in
      modify (symbol_map_insert name ptr) ;;
      ret (negb (is_null ptr))
  | Some second => ret (negb (is_null second))
  end.

(** *** Opening a library, as a function of the host

    "Prefer the version-qualified file name; if that open fails, fall back to
    the unqualified name": the handle obtained (null when both opens fail),
    the host afterwards, and the linker calls made, in order. *)
Record Opened : Type := {
  handle : pointer;
  host : OS;
  opens : list DlCall
}.

Definition open_versioned_then_plain (versioned plain : string) (o : OS) : Opened :=
  let first := dlopen versioned RTLD_NOW o in
  if is_null first.1 then
    let second := dlopen plain RTLD_NOW first.2 in
    {| handle := second.1; host := second.2;
       opens := [Call_dlopen versioned RTLD_NOW; Call_dlopen plain RTLD_NOW] |}
  else
    {| handle := first.1; host := first.2; opens := [Call_dlopen versioned RTLD_NOW] |}.

(** The handle of a library whose static is [static]: the stored one, or the
    one a fresh open yields. *)
Definition library_handle (static : option pointer) (versioned plain : string) (o : OS)
  : Opened :=
  match static with
  | Some h => {| handle := h; host := o; opens := [] |}
  | None => open_versioned_then_plain versioned plain o
  end.

(** The state after linker activity [a]. *)
Definition linked (s : NppState) (a : Opened) : NppState :=
  {| os := host a; nppcDrvLib := nppcDrvLib s; nppiccDrvLib := nppiccDrvLib s;
     symbol_map := symbol_map s; dl_calls := dl_calls s ++ opens a |}.

Lemma loadNppcLibrary_unfold (s : NppState) :
  let a := open_versioned_then_plain __NppcLibNameCuVer __NppcLibName (os s) in
  loadNppcLibrary s =
    ((if is_null (handle a) then Aborted nppc_error else Returned (handle a)), linked s a).
Proof.
  cbv zeta. unfold loadNppcLibrary, open_versioned_then_plain, bind, call_dlopen, linked.
  destruct (dlopen __NppcLibNameCuVer RTLD_NOW (os s)) as [r0 o0] eqn:H0; cbn.
  destruct (is_null r0) eqn:Hn0; cbn.
  - destruct (dlopen __NppcLibName RTLD_NOW o0) as [r1 o1] eqn:H1; cbn.
    destruct (is_null r1); cbn; by rewrite <- app_assoc.
  - by rewrite Hn0.
Qed.

Lemma loadNppiccLibrary_unfold (s : NppState) :
  let a := open_versioned_then_plain __NppiccLibNameCuVer __NppiccLibName (os s) in
  loadNppiccLibrary s =
    ((if is_null (handle a) then Aborted nppicc_error else Returned (handle a)), linked s a).
Proof.
  cbv zeta. unfold loadNppiccLibrary, open_versioned_then_plain, bind, call_dlopen, linked.
  destruct (dlopen __NppiccLibNameCuVer RTLD_NOW (os s)) as [r0 o0] eqn:H0; cbn.
  destruct (is_null r0) eqn:Hn0; cbn.
  - destruct (dlopen __NppiccLibName RTLD_NOW o0) as [r1 o1] eqn:H1; cbn.
    destruct (is_null r1); cbn; by rewrite <- app_assoc.
  - by rewrite Hn0.
Qed.

(** *** [NppLoadSymbol], case by case *)

Section LoadSymbol.

Variables (name : string) (s : NppState).

Let c := library_handle (nppcDrvLib s) __NppcLibNameCuVer __NppcLibName (os s).
Let i := library_handle (nppiccDrvLib s) __NppiccLibNameCuVer __NppiccLibName (host c).
Let first := dlsym (handle i) name (host i).
Let second := dlsym (handle c) name first.2.

Lemma NppLoadSymbol_nppc_missing :
  nppcDrvLib s = None ->
  is_null (handle c) = true ->
  NppLoadSymbol name s = (Aborted nppc_error, linked s c).
Proof.
  subst c. intros Hs Hc. rewrite Hs in Hc |- *. cbn [library_handle] in *.
  unfold NppLoadSymbol, static_local, bind at 1 2, gets. rewrite Hs.
  unfold bind at 1. rewrite loadNppcLibrary_unfold. cbv zeta. by rewrite Hc.
Qed.

Lemma NppLoadSymbol_nppicc_missing :
  is_null (handle c) = false ->
  nppiccDrvLib s = None ->
  is_null (handle i) = true ->
  NppLoadSymbol name s =
    (Aborted nppicc_error,
     {| os := host i; nppcDrvLib := Some (handle c); nppiccDrvLib := None;
        symbol_map := symbol_map s; dl_calls := dl_calls s ++ opens c ++ opens i |}).
Proof.
  subst i c. intros Hc Hs Hi. rewrite Hs in Hi |- *. cbn [library_handle] in Hi |- *.
  unfold NppLoadSymbol.
  destruct s as [o [hc|] si m l]; cbn in Hs, Hc, Hi |- *; subst si.
  - unfold static_local, bind, gets; cbn.
    rewrite loadNppiccLibrary_unfold. cbv zeta. cbn. rewrite Hi.
    by unfold linked.
  - unfold static_local, bind, gets; cbn.
    rewrite loadNppcLibrary_unfold. cbv zeta. cbn. rewrite Hc. cbn.
    rewrite loadNppiccLibrary_unfold. cbv zeta. cbn. rewrite Hi.
    unfold linked; cbn. by rewrite <- app_assoc.
Qed.

Lemma NppLoadSymbol_loaded :
  is_null (handle c) = false ->
  is_null (handle i) = false ->
  NppLoadSymbol name s =
    (Returned (if is_null first.1 then second.1 else first.1),
     {| os := (if is_null first.1 then second.2 else first.2);
        nppcDrvLib := Some (handle c); nppiccDrvLib := Some (handle i);
        symbol_map := symbol_map s;
        dl_calls := dl_calls s ++ opens c ++ opens i ++
          Call_dlsym (handle i) name ::
          (if is_null first.1 then [Call_dlsym (handle c) name] else []) |}).
Proof.
  subst second first i c. intros Hc Hi.
  unfold NppLoadSymbol.
  destruct s as [o sc si m l]; cbn in Hc, Hi |- *.
  assert (Hstep1 :
    static_local nppcDrvLib set_nppcDrvLib loadNppcLibrary
      {| os := o; nppcDrvLib := sc; nppiccDrvLib := si; symbol_map := m; dl_calls := l |}
    = (Returned (handle (library_handle sc __NppcLibNameCuVer __NppcLibName o)),
       {| os := host (library_handle sc __NppcLibNameCuVer __NppcLibName o);
          nppcDrvLib := Some (handle (library_handle sc __NppcLibNameCuVer __NppcLibName o));
          nppiccDrvLib := si; symbol_map := m;
          dl_calls := l ++ opens (library_handle sc __NppcLibNameCuVer __NppcLibName o) |})).
  { unfold static_local, bind, gets; cbn. destruct sc as [hc|]; cbn.
    - by rewrite app_nil_r.
    - cbn in Hc. rewrite loadNppcLibrary_unfold. cbv zeta. cbn. by rewrite Hc. }
  unfold bind at 1. rewrite Hstep1. clear Hstep1.
  set (a := library_handle sc __NppcLibNameCuVer __NppcLibName o) in *.
  assert (Hstep2 :
    static_local nppiccDrvLib set_nppiccDrvLib loadNppiccLibrary
      {| os := host a; nppcDrvLib := Some (handle a); nppiccDrvLib := si;
         symbol_map := m; dl_calls := l ++ opens a |}
    = (Returned (handle (library_handle si __NppiccLibNameCuVer __NppiccLibName (host a))),
       {| os := host (library_handle si __NppiccLibNameCuVer __NppiccLibName (host a));
          nppcDrvLib := Some (handle a);
          nppiccDrvLib :=
            Some (handle (library_handle si __NppiccLibNameCuVer __NppiccLibName (host a)));
          symbol_map := m;
          dl_calls := l ++ opens a ++
            opens (library_handle si __NppiccLibNameCuVer __NppiccLibName (host a)) |})).
  { unfold static_local, bind, gets; cbn. destruct si as [hi|]; cbn.
    - by rewrite app_nil_r.
    - cbn in Hi. rewrite loadNppiccLibrary_unfold. cbv zeta. cbn. rewrite Hi.
      unfold linked; cbn. by rewrite <- app_assoc. }
  unfold bind at 1. rewrite Hstep2. clear Hstep2.
  set (b := library_handle si __NppiccLibNameCuVer __NppiccLibName (host a)) in *.
  rewrite Hi. unfold bind, call_dlsym; cbn.
  destruct (dlsym (handle b) name (host b)) as [r1 o1]; cbn.
  destruct (is_null r1); cbn.
  - rewrite Hc; cbn. destruct (dlsym (handle a) name o1) as [r2 o2]; cbn.
    do 2 f_equal. by rewrite <- !app_assoc.
  - do 2 f_equal. by rewrite <- !app_assoc.
Qed.

(** [NppLoadSymbol] never touches the cache of [nppIsSymbolAvailable]. *)
Lemma NppLoadSymbol_symbol_map : symbol_map (NppLoadSymbol name s).2 = symbol_map s.
Proof.
  unfold NppLoadSymbol, static_local, bind, gets, modify, ret, abort,
    loadNppcLibrary, loadNppiccLibrary, call_dlopen, call_dlsym, bind.
  destruct s as [o sc si m l]; cbn.
  repeat match goal with
         | |- context [match ?x with _ => _ end] =>
             match x with
             | context [match _ with _ => _ end] => fail 1
             | _ => destruct x; cbn
             end
         end; reflexivity.
Qed.

End LoadSymbol.

(** *** The cache of [nppIsSymbolAvailable] *)

Lemma nppIsSymbolAvailable_hit (name : string) (s : NppState) (v : pointer) :
  symbol_map s !! name = Some v ->
  nppIsSymbolAvailable name s = (Returned (negb (is_null v)), s).
Proof.
  intros Hv. unfold nppIsSymbolAvailable, bind at 1, gets. by rewrite Hv.
Qed.

Lemma nppIsSymbolAvailable_miss (name : string) (s : NppState) :
  symbol_map s !! name = None ->
  nppIsSymbolAvailable name s =
    match NppLoadSymbol name s with
    | (Returned ptr, s') => (Returned (negb (is_null ptr)), symbol_map_insert name ptr s')
    | (Aborted e, s') => (Aborted e, s')
    end.
Proof.
  intros Hv. unfold nppIsSymbolAvailable, bind at 1, gets. rewrite Hv.
  unfold bind, modify, ret. by destruct (NppLoadSymbol name s) as [[ptr|e] s'].
Qed.

Lemma symbol_map_insert_lookup (name : string) (ptr : pointer) (s : NppState) :
  symbol_map s !! name = None ->
  symbol_map (symbol_map_insert name ptr s) !! name = Some ptr.
Proof.
  intros Hv. unfold symbol_map_insert; cbn. rewrite Hv. apply lookup_insert_eq.
Qed.

Lemma symbol_map_insert_keeps (name k : string) (ptr v : pointer) (s : NppState) :
  symbol_map s !! k = Some v ->
  symbol_map (symbol_map_insert name ptr s) !! k = Some v.
Proof.
  intros Hv. unfold symbol_map_insert; cbn.
  destruct (symbol_map s !! name) eqn:Hn; [done|].
  rewrite lookup_insert_ne; [done|]. intros ->. congruence.
Qed.

(** An entry, once in the cache, stays as it is. *)
Lemma nppIsSymbolAvailable_keeps (name k : string) (v : pointer) (s : NppState) :
  symbol_map s !! k = Some v ->
  symbol_map (nppIsSymbolAvailable name s).2 !! k = Some v.
Proof.
  intros Hv. destruct (symbol_map s !! name) as [u|] eqn:Hn.
  - by rewrite (nppIsSymbolAvailable_hit _ _ _ Hn).
  - rewrite (nppIsSymbolAvailable_miss _ _ Hn).
    pose proof (NppLoadSymbol_symbol_map name s) as Hm.
    destruct (NppLoadSymbol name s) as [[ptr|e] s']; cbn [snd] in *.
    + apply symbol_map_insert_keeps. by rewrite Hm.
    + by rewrite Hm.
Qed.

(** A call that returns leaves its answer in the cache. *)
Lemma nppIsSymbolAvailable_caches (name : string) (s s1 : NppState) (b : bool) :
  nppIsSymbolAvailable name s = (Returned b, s1) ->
  exists v, symbol_map s1 !! name = Some v /\ b = negb (is_null v).
Proof.
  destruct (symbol_map s !! name) as [u|] eqn:Hn.
  - rewrite (nppIsSymbolAvailable_hit _ _ _ Hn). intros [= <- <-]. eauto.
  - rewrite (nppIsSymbolAvailable_miss _ _ Hn).
    pose proof (NppLoadSymbol_symbol_map name s) as Hm.
    destruct (NppLoadSymbol name s) as [[ptr|e] s']; cbn [snd] in *; [|done].
    intros [= <- <-]. exists ptr. split; [|done].
    apply symbol_map_insert_lookup. by rewrite Hm.
Qed.

(** What can happen in the process and on the host between two calls:
    calls of the two entry points with any names, whatever their outcome, and
    changes of the host by anyone. *)
Inductive Activity : Type :=
| Act_nppIsSymbolAvailable (name : string)
| Act_NppLoadSymbol (name : string)
| Act_host (change : OS -> OS).

Definition perform (a : Activity) (s : NppState) : NppState :=
  match a with
  | Act_nppIsSymbolAvailable name => (nppIsSymbolAvailable name s).2
  | Act_NppLoadSymbol name => (NppLoadSymbol name s).2
  | Act_host change =>
      {| os := change (os s); nppcDrvLib := nppcDrvLib s; nppiccDrvLib := nppiccDrvLib s;
         symbol_map := symbol_map s; dl_calls := dl_calls s |}
  end.

Definition perform_all (l : list Activity) (s : NppState) : NppState :=
  fold_left (fun s a => perform a s) l s.

Lemma perform_keeps (a : Activity) (k : string) (v : pointer) (s : NppState) :
  symbol_map s !! k = Some v -> symbol_map (perform a s) !! k = Some v.
Proof.
  intros Hv. destruct a as [name|name|change]; cbn [perform].
  - by apply nppIsSymbolAvailable_keeps.
  - by rewrite NppLoadSymbol_symbol_map.
  - done.
Qed.

Lemma perform_all_keeps (l : list Activity) (k : string) (v : pointer) (s : NppState) :
  symbol_map s !! k = Some v -> symbol_map (perform_all l s) !! k = Some v.
Proof.
  revert s. induction l as [|a l IH]; intros s Hv; [done|].
  cbn. apply IH. by apply perform_keeps.
Qed.

(** *** Properties of the resolver *)

(** C6.  With both libraries available - their statics initialised, or
    their files opening at this call - [NppLoadSymbol] asks libnppicc for the
    name first and asks libnppc only when libnppicc returned null; it returns
    libnppicc's address when that is not null, otherwise libnppc's, which is
    null when the symbol is in neither. *)
Theorem NppLoadSymbol_looks_in_nppicc_then_nppc (name : string) (s : NppState) :
  let c := library_handle (nppcDrvLib s) __NppcLibNameCuVer __NppcLibName (os s) in
  let i := library_handle (nppiccDrvLib s) __NppiccLibNameCuVer __NppiccLibName (host c) in
  is_null (handle c) = false ->
  is_null (handle i) = false ->
  let first := dlsym (handle i) name (host i) in
  let second := dlsym (handle c) name first.2 in
  let out := NppLoadSymbol name s in
  out.1 = Returned (if is_null first.1 then second.1 else first.1)
  /\ dl_calls out.2 =
       dl_calls s ++ opens c ++ opens i ++
       Call_dlsym (handle i) name ::
       (if is_null first.1 then [Call_dlsym (handle c) name] else [])
  /\ (is_null first.1 = true -> is_null second.1 = true -> out.1 = Returned nullptr).
Proof.
  cbv zeta. intros Hc Hi. rewrite (NppLoadSymbol_loaded name s Hc Hi). cbn [fst snd dl_calls].
  split; [done|]. split; [done|].
  intros H1 H2. rewrite H1. f_equal. by apply Z.eqb_eq in H2.
Qed.

(** C3.  A call of [nppIsSymbolAvailable] for a name not yet cached obtains
    the two library handles, libnppc first.  A library whose static is not
    initialised is opened under its version-qualified file name, and under
    its unqualified name only when that open returned null.  When both opens
    of a library return null the call throws the [runtime_error] that names
    that library, and caches nothing.  When both handles are obtained the
    call returns a boolean - [false] when neither library has the symbol -
    and does not throw. *)
Theorem missing_library_is_fatal_missing_symbol_is_not (name : string) (s : NppState) :
  symbol_map s !! name = None ->
  let c := library_handle (nppcDrvLib s) __NppcLibNameCuVer __NppcLibName (os s) in
  let i := library_handle (nppiccDrvLib s) __NppiccLibNameCuVer __NppiccLibName (host c) in
  let out := nppIsSymbolAvailable name s in
  (nppcDrvLib s = None ->
     let versioned := dlopen __NppcLibNameCuVer RTLD_NOW (os s) in
     opens c = Call_dlopen __NppcLibNameCuVer RTLD_NOW ::
               (if is_null versioned.1 then [Call_dlopen __NppcLibName RTLD_NOW] else [])
     /\ handle c = (if is_null versioned.1
                    then (dlopen __NppcLibName RTLD_NOW versioned.2).1
                    else versioned.1))
  /\ (nppiccDrvLib s = None ->
     let versioned := dlopen __NppiccLibNameCuVer RTLD_NOW (host c) in
     opens i = Call_dlopen __NppiccLibNameCuVer RTLD_NOW ::
               (if is_null versioned.1 then [Call_dlopen __NppiccLibName RTLD_NOW] else [])
     /\ handle i = (if is_null versioned.1
                    then (dlopen __NppiccLibName RTLD_NOW versioned.2).1
                    else versioned.1))
  /\ (nppcDrvLib s = None -> is_null (handle c) = true ->
      out.1 = Aborted nppc_error
      /\ dl_calls out.2 = dl_calls s ++ opens c
      /\ symbol_map out.2 = symbol_map s)
  /\ (is_null (handle c) = false -> nppiccDrvLib s = None -> is_null (handle i) = true ->
      out.1 = Aborted nppicc_error
      /\ dl_calls out.2 = dl_calls s ++ opens c ++ opens i
      /\ symbol_map out.2 = symbol_map s)
  /\ (is_null (handle c) = false -> is_null (handle i) = false ->
      let first := dlsym (handle i) name (host i) in
      let second := dlsym (handle c) name first.2 in
      out.1 = Returned (negb (is_null first.1) || negb (is_null second.1))
      /\ (is_null first.1 = true -> is_null second.1 = true -> out.1 = Returned false)).
Proof.
  cbv zeta. intros Hmiss.
  rewrite (nppIsSymbolAvailable_miss _ _ Hmiss).
  split; [|split; [|split; [|split]]].
  - intros ->. cbn [library_handle]. unfold open_versioned_then_plain.
    by destruct (is_null (dlopen __NppcLibNameCuVer RTLD_NOW (os s)).1).
  - intros ->. cbn [library_handle]. unfold open_versioned_then_plain.
    by destruct (is_null (dlopen __NppiccLibNameCuVer RTLD_NOW _).1).
  - intros Hs Hc. by rewrite (NppLoadSymbol_nppc_missing name s Hs Hc).
  - intros Hc Hs Hi. by rewrite (NppLoadSymbol_nppicc_missing name s Hc Hs Hi).
  - intros Hc Hi. rewrite (NppLoadSymbol_loaded name s Hc Hi). cbn [fst snd].
    split.
    + destruct (is_null (dlsym _ name _).1) eqn:H1; cbn [negb orb]; [done|].
      by rewrite H1.
    + intros H1 H2. by rewrite H1, H2.
Qed.

(** C4.  Once a call of [nppIsSymbolAvailable] for a name has returned,
    every later call for that name - whatever calls were made and whatever
    happened on the host in between - returns the same boolean and leaves the
    whole state as it found it: no library is opened and no symbol looked up. *)
Theorem nppIsSymbolAvailable_answers_from_cache
    (name : string) (s s1 : NppState) (b : bool) :
  nppIsSymbolAvailable name s = (Returned b, s1) ->
  forall between : list Activity,
    let s2 := perform_all between s1 in
    nppIsSymbolAvailable name s2 = (Returned b, s2)
    /\ dl_calls (nppIsSymbolAvailable name s2).2 = dl_calls s2.
Proof.
  intros Hfirst between. cbv zeta.
  destruct (nppIsSymbolAvailable_caches _ _ _ _ Hfirst) as (v & Hv & ->).
  rewrite (nppIsSymbolAvailable_hit name (perform_all between s1) v).
  - done.
  - by apply perform_all_keeps.
Qed.

(** *** Threads

    Several threads inside [nppIsSymbolAvailable], each with its own
    argument.  A thread advances one statement at a time: taking the
    [lock_guard] (possible only while [symbol_mutex] is free), [find], the
    call of [NppLoadSymbol], [insert], and the [return], which releases the
    mutex; an exception out of [NppLoadSymbol] releases it as well.  Any
    interleaving of such steps, and of changes of the host, is a run. *)
Inductive Pc : Type :=
| AtEntry                    (* called; the lock_guard not yet taken *)
| AtFind                     (* holds the mutex; next: symbol_map.find(name) *)
| AtLoad                     (* holds the mutex; find missed; next: NppLoadSymbol(name) *)
| AtInsert (ptr : pointer)   (* holds the mutex; next: symbol_map.insert({name, ptr}) *)
| AtReturn (v : pointer)     (* holds the mutex; next: return v != nullptr *)
| Done (b : bool)            (* has returned b *)
| Raised (e : exception).    (* has left by the exception e *)

Record Thread : Type := { arg : string; pc : Pc }.

Record Config : Type := {
  shared : NppState;
  symbol_mutex : option nat;       (* the thread that holds it *)
  threads : list Thread;
  resolutions : list string        (* arguments of the calls of NppLoadSymbol made, oldest first *)
}.

Definition goto (t : nat) (th : Thread) (p : Pc) (ths : list Thread) : list Thread :=
  <[t := {| arg := arg th; pc := p |}]> ths.

(** One step of thread [t]; [None] when it cannot move (no such thread, it
    has left the function, or it waits for the mutex). *)
Definition step_thread (t : nat) (cfg : Config) : option Config :=
  match threads cfg !! t with
  | None => None
  | Some th =>
      match pc th with
      | AtEntry =>
          match symbol_mutex cfg with
          | Some _ => None
          | None =>
              Some {| shared := shared cfg; symbol_mutex := Some t;
                      threads := goto t th AtFind (threads cfg);
                      resolutions := resolutions cfg |}
          end
      | AtFind =>
          let next := match symbol_map (shared cfg) !! arg th with
                      | None => AtLoad
                      | Some second => AtReturn second
                      end in
          Some {| shared := shared cfg; symbol_mutex := symbol_mutex cfg;
                  threads := goto t th next (threads cfg);
                  resolutions := resolutions cfg |}
      | AtLoad =>
          match NppLoadSymbol (arg th) (shared cfg) with
          | (Returned ptr, s') =>
              Some {| shared := s'; symbol_mutex := symbol_mutex cfg;
                      threads := goto t th (AtInsert ptr) (threads cfg);
                      resolutions := resolutions cfg ++ [arg th] |}
          | (Aborted e, s') =>
              Some {| shared := s'; symbol_mutex := None;
                      threads := goto t th (Raised e) (threads cfg);
                      resolutions := resolutions cfg ++ [arg th] |}
          end
      | AtInsert ptr =>
          Some {| shared := symbol_map_insert (arg th) ptr (shared cfg);
                  symbol_mutex := symbol_mutex cfg;
                  threads := goto t th (AtReturn ptr) (threads cfg);
                  resolutions := resolutions cfg |}
      | AtReturn v =>
          Some {| shared := shared cfg; symbol_mutex := None;
                  threads := goto t th (Done (negb (is_null v))) (threads cfg);
                  resolutions := resolutions cfg |}
      | Done _ | Raised _ => None
      end
  end.

Inductive Action : Type :=
| Run (t : nat)
| Host (change : OS -> OS).

Definition step (a : Action) (cfg : Config) : option Config :=
  match a with
  | Run t => step_thread t cfg
  | Host change =>
      Some {| shared := perform (Act_host change) (shared cfg);
              symbol_mutex := symbol_mutex cfg; threads := threads cfg;
              resolutions := resolutions cfg |}
  end.

(** A schedule is run action by action; it is a run when every action can
    be taken. *)
Fixpoint exec (sched : list Action) (cfg : Config) : option Config :=
  match sched with
  | [] => Some cfg
  | a :: sched' =>
      match step a cfg with
      | Some cfg' => exec sched' cfg'
      | None => None
      end
  end.

(** The threads have just called, with the arguments [names]. *)
Definition start (s : NppState) (names : list string) : Config :=
  {| shared := s; symbol_mutex := None;
     threads := (fun n => {| arg := n; pc := AtEntry |}) <$> names;
     resolutions := [] |}.

Definition has_returned (th : Thread) : bool :=
  match pc th with Done _ => true | _ => false end.

Definition has_left (th : Thread) : bool :=
  match pc th with Done _ | Raised _ => true | _ => false end.

(** Every call for [name] has returned. *)
Definition all_returned (name : string) (cfg : Config) : bool :=
  forallb (fun th => if decide (arg th = name) then has_returned th else true)
    (threads cfg).

(** Every thread has left the function. *)
Definition all_left (cfg : Config) : bool := forallb has_left (threads cfg).

(** How often [NppLoadSymbol(name)] was called. *)
Definition times (name : string) (l : list string) : nat :=
  length (filter (fun k => k = name) l).

(** **** What every run maintains *)

Definition in_critical (p : Pc) : bool :=
  match p with
  | AtFind | AtLoad | AtInsert _ | AtReturn _ => true
  | _ => false
  end.

(** The mutex is held by exactly the thread that is between its
    [lock_guard] and its exit, if there is one. *)
Definition Exclusive (m : option nat) (ths : list Thread) : Prop :=
  (forall t th, ths !! t = Some th -> in_critical (pc th) = true -> m = Some t)
  /\ (forall t, m = Some t -> exists th, ths !! t = Some th /\ in_critical (pc th) = true).

(** What a thread knows about the cache is true of the cache. *)
Definition pc_ok (m : gmap string pointer) (th : Thread) : Prop :=
  match pc th with
  | AtLoad | AtInsert _ => m !! arg th = None
  | AtReturn v => m !! arg th = Some v
  | Done b => exists v, m !! arg th = Some v /\ b = negb (is_null v)
  | _ => True
  end.

(** A call of [NppLoadSymbol(name)] is accounted for by the thread that made
    it while that thread has not inserted yet or has left by the exception,
    and by the cache entry afterwards. *)
Definition weight (name : string) (th : Thread) : nat :=
  if decide (arg th = name) then
    match pc th with AtInsert _ | Raised _ => 1%nat | _ => 0%nat end
  else 0%nat.

Definition cached (name : string) (m : gmap string pointer) : nat :=
  match m !! name with Some _ => 1%nat | None => 0%nat end.

Record Inv (name : string) (cfg : Config) : Prop := {
  inv_exclusive : Exclusive (symbol_mutex cfg) (threads cfg);
  inv_pc : forall t th, threads cfg !! t = Some th -> pc_ok (symbol_map (shared cfg)) th;
  inv_count :
    times name (resolutions cfg) =
      (sum_list_with (weight name) (threads cfg)
       + cached name (symbol_map (shared cfg)))%nat
}.

Lemma sum_list_with_insert {A} (f : A -> nat) (l : list A) (t : nat) (a a' : A) :
  l !! t = Some a ->
  (sum_list_with f (<[t := a']> l) + f a = sum_list_with f l + f a')%nat.
Proof.
  revert t. induction l as [|b l IH]; intros [|t] Ht; try done.
  - injection Ht as ->. change (<[0%nat := a']> (a :: l)) with (a' :: l).
    cbn [sum_list_with]. lia.
  - change (l !! t = Some a) in Ht. specialize (IH t Ht).
    change (<[S t := a']> (b :: l)) with (b :: <[t := a']> l).
    cbn [sum_list_with]. lia.
Qed.

Lemma goto_lookup_same (t : nat) (th : Thread) (p : Pc) (ths : list Thread) :
  ths !! t = Some th -> goto t th p ths !! t = Some {| arg := arg th; pc := p |}.
Proof. intros Ht. apply list_lookup_insert_eq. by eapply lookup_lt_Some. Qed.

Lemma goto_lookup_other (t t' : nat) (th : Thread) (p : Pc) (ths : list Thread) :
  t <> t' -> goto t th p ths !! t' = ths !! t'.
Proof. intros Hne. by apply list_lookup_insert_ne. Qed.

Lemma goto_lookup_cases (t t' : nat) (th th' : Thread) (p : Pc) (ths : list Thread) :
  ths !! t = Some th ->
  goto t th p ths !! t' = Some th' ->
  (t' = t /\ th' = {| arg := arg th; pc := p |}) \/ (t' <> t /\ ths !! t' = Some th').
Proof.
  intros Ht Hl. destruct (decide (t' = t)) as [->|Hne].
  - left. rewrite (goto_lookup_same _ _ _ _ Ht) in Hl. by injection Hl as <-.
  - right. by rewrite goto_lookup_other in Hl.
Qed.

Lemma Exclusive_enter (ths : list Thread) (t : nat) (th : Thread) (p : Pc) :
  Exclusive None ths -> ths !! t = Some th -> in_critical p = true ->
  Exclusive (Some t) (goto t th p ths).
Proof.
  intros [Hown _] Ht Hp. split.
  - intros t' th' Hl Hc.
    destruct (goto_lookup_cases _ _ _ _ _ _ Ht Hl) as [[-> _]|[_ Hl']]; [done|].
    by specialize (Hown _ _ Hl' Hc).
  - intros t' [= <-]. eexists. by split; [apply goto_lookup_same|].
Qed.

Lemma Exclusive_stay (m : option nat) (ths : list Thread) (t : nat) (th : Thread) (p : Pc) :
  Exclusive m ths -> ths !! t = Some th ->
  in_critical (pc th) = true -> in_critical p = true ->
  Exclusive m (goto t th p ths).
Proof.
  intros [Hown Hheld] Ht Hc Hp. split.
  - intros t' th' Hl Hc'.
    destruct (goto_lookup_cases _ _ _ _ _ _ Ht Hl) as [[-> _]|[_ Hl']]; eauto.
  - intros t' Hm. destruct (decide (t' = t)) as [->|Hne].
    + eexists. by split; [apply goto_lookup_same|].
    + destruct (Hheld _ Hm) as (th' & Hl' & Hc'). exists th'.
      by rewrite goto_lookup_other.
Qed.

Lemma Exclusive_leave (m : option nat) (ths : list Thread) (t : nat) (th : Thread) (p : Pc) :
  Exclusive m ths -> ths !! t = Some th ->
  in_critical (pc th) = true -> in_critical p = false ->
  Exclusive None (goto t th p ths).
Proof.
  intros [Hown _] Ht Hc Hp. split; [|done].
  intros t' th' Hl Hc'.
  destruct (goto_lookup_cases _ _ _ _ _ _ Ht Hl) as [[-> ->]|[Hne Hl']].
  - cbn in Hc'. congruence.
  - pose proof (Hown _ _ Ht Hc). pose proof (Hown _ _ Hl' Hc'). congruence.
Qed.

Lemma Exclusive_others (m : option nat) (ths : list Thread) (t t' : nat) (th th' : Thread) :
  Exclusive m ths -> ths !! t = Some th -> in_critical (pc th) = true ->
  ths !! t' = Some th' -> t' <> t -> in_critical (pc th') = false.
Proof.
  intros [Hown _] Ht Hc Ht' Hne.
  destruct (in_critical (pc th')) eqn:Hc'; [|done].
  pose proof (Hown _ _ Ht Hc). pose proof (Hown _ _ Ht' Hc'). congruence.
Qed.

Lemma pc_ok_outside (m m' : gmap string pointer) (th : Thread) :
  (forall k v, m !! k = Some v -> m' !! k = Some v) ->
  in_critical (pc th) = false -> pc_ok m th -> pc_ok m' th.
Proof.
  intros Hkeep. unfold pc_ok. destruct (pc th); try done.
  intros _ (v & Hv & ->). eauto.
Qed.

Lemma cached_insert_other (name k : string) (ptr : pointer) (s : NppState) :
  k <> name ->
  cached name (symbol_map (symbol_map_insert k ptr s)) = cached name (symbol_map s).
Proof.
  intros Hne. unfold cached, symbol_map_insert; cbn.
  destruct (symbol_map s !! k); [done|]. by rewrite lookup_insert_ne.
Qed.

Lemma times_snoc (name k : string) (l : list string) :
  times name (l ++ [k]) = (times name l + (if decide (k = name) then 1 else 0))%nat.
Proof.
  unfold times. rewrite filter_app, length_app. f_equal.
  rewrite filter_cons, filter_nil. by destruct (decide (k = name)).
Qed.

Lemma weight_goto (name : string) (t : nat) (th : Thread) (p : Pc) (ths : list Thread) :
  ths !! t = Some th ->
  (sum_list_with (weight name) (goto t th p ths) + weight name th
   = sum_list_with (weight name) ths + weight name {| arg := arg th; pc := p |})%nat.
Proof. apply sum_list_with_insert. Qed.

Lemma weight_unfold (name : string) (th : Thread) :
  weight name th =
    if decide (arg th = name) then
      match pc th with AtInsert _ | Raised _ => 1%nat | _ => 0%nat end
    else 0%nat.
Proof. reflexivity. Qed.

(** Thread [t] moves to [p]; the cache is not touched. *)
Lemma Inv_pc_goto (m : gmap string pointer) (t : nat) (th : Thread) (p : Pc)
    (ths : list Thread) :
  (forall t' th', ths !! t' = Some th' -> pc_ok m th') ->
  ths !! t = Some th ->
  pc_ok m {| arg := arg th; pc := p |} ->
  forall t' th', goto t th p ths !! t' = Some th' -> pc_ok m th'.
Proof.
  intros Hpc Ht Hp t' th' Hl.
  destruct (goto_lookup_cases _ _ _ _ _ _ Ht Hl) as [[-> ->]|[_ Hl']]; eauto.
Qed.

Lemma step_thread_Inv (name : string) (t : nat) (cfg cfg' : Config) :
  Inv name cfg -> step_thread t cfg = Some cfg' -> Inv name cfg'.
Proof.
  intros [Hex Hpc Hcount] Hstep. unfold step_thread in Hstep.
  destruct (threads cfg !! t) as [th|] eqn:Ht; [|done].
  pose proof (Hpc _ _ Ht) as Hth. unfold pc_ok in Hth.
  pose proof (weight_unfold name th) as Hw.
  destruct (pc th) as [| | |ptr|v|b|e] eqn:Hp.
  - (* taking the lock_guard *)
    destruct (symbol_mutex cfg) eqn:Hm; [done|]. injection Hstep as <-.
    pose proof (weight_goto name t th AtFind _ Ht) as Hg.
    rewrite weight_unfold with (th := Build_Thread _ _) in Hg. cbn [arg pc] in Hg.
    split; cbn [shared symbol_mutex threads resolutions].
    + by apply Exclusive_enter.
    + by apply Inv_pc_goto.
    + rewrite Hcount. destruct (decide (arg th = name)); lia.
  - (* find *)
    injection Hstep as <-.
    set (next := match symbol_map (shared cfg) !! arg th with
                 | Some second => AtReturn second | None => AtLoad end).
    assert (Hnext : in_critical next = true /\
                    pc_ok (symbol_map (shared cfg)) {| arg := arg th; pc := next |}).
    { subst next. unfold pc_ok; cbn [arg pc].
      by destruct (symbol_map (shared cfg) !! arg th). }
    destruct Hnext as [Hcrit Hok].
    pose proof (weight_goto name t th next _ Ht) as Hg.
    rewrite weight_unfold with (th := Build_Thread _ _) in Hg. cbn [arg pc] in Hg.
    assert (Hzero : match next with AtInsert _ | Raised _ => 1%nat | _ => 0%nat end = 0%nat).
    { subst next. by destruct (symbol_map (shared cfg) !! arg th). }
    rewrite Hzero in Hg.
    split; cbn [shared symbol_mutex threads resolutions].
    + apply Exclusive_stay; try done. by rewrite Hp.
    + by apply Inv_pc_goto.
    + rewrite Hcount. destruct (decide (arg th = name)); lia.
  - (* the call of NppLoadSymbol *)
    pose proof (NppLoadSymbol_symbol_map (arg th) (shared cfg)) as Hmap.
    destruct (NppLoadSymbol (arg th) (shared cfg)) as [[ptr|e] s'];
      cbn [snd] in Hmap; injection Hstep as <-.
    + pose proof (weight_goto name t th (AtInsert ptr) _ Ht) as Hg.
      rewrite weight_unfold with (th := Build_Thread _ _) in Hg. cbn [arg pc] in Hg.
      split; cbn [shared symbol_mutex threads resolutions]; rewrite ?Hmap.
      * apply Exclusive_stay; try done. by rewrite Hp.
      * by apply Inv_pc_goto.
      * rewrite times_snoc, Hcount. destruct (decide (arg th = name)); lia.
    + pose proof (weight_goto name t th (Raised e) _ Ht) as Hg.
      rewrite weight_unfold with (th := Build_Thread _ _) in Hg. cbn [arg pc] in Hg.
      split; cbn [shared symbol_mutex threads resolutions]; rewrite ?Hmap.
      * eapply Exclusive_leave; try done. by rewrite Hp.
      * by apply Inv_pc_goto.
      * rewrite times_snoc, Hcount. destruct (decide (arg th = name)); lia.
  - (* insert *)
    injection Hstep as <-.
    pose proof (weight_goto name t th (AtReturn ptr) _ Ht) as Hg.
    rewrite weight_unfold with (th := Build_Thread _ _) in Hg. cbn [arg pc] in Hg.
    split; cbn [shared symbol_mutex threads resolutions].
    + apply Exclusive_stay; try done. by rewrite Hp.
    + intros t' th' Hl.
      destruct (goto_lookup_cases _ _ _ _ _ _ Ht Hl) as [[-> ->]|[Hne Hl']].
      * unfold pc_ok; cbn [arg pc]. by apply symbol_map_insert_lookup.
      * apply pc_ok_outside with (m := symbol_map (shared cfg)).
        -- intros k u Hk. by apply symbol_map_insert_keeps.
        -- eapply Exclusive_others; [exact Hex|exact Ht| |exact Hl'|exact Hne].
           by rewrite Hp.
        -- eauto.
    + rewrite Hcount. destruct (decide (arg th = name)) as [Heq|Hne].
      * assert (cached name (symbol_map (shared cfg)) = 0%nat) as ->
          by (unfold cached; by rewrite <- Heq, Hth).
        assert (cached name (symbol_map (symbol_map_insert (arg th) ptr (shared cfg)))
                = 1%nat) as ->.
        { unfold cached. rewrite <- Heq. by rewrite symbol_map_insert_lookup. }
        lia.
      * rewrite cached_insert_other by done. lia.
  - (* return *)
    injection Hstep as <-.
    pose proof (weight_goto name t th (Done (negb (is_null v))) _ Ht) as Hg.
    rewrite weight_unfold with (th := Build_Thread _ _) in Hg. cbn [arg pc] in Hg.
    split; cbn [shared symbol_mutex threads resolutions].
    + eapply Exclusive_leave; try done. by rewrite Hp.
    + apply Inv_pc_goto; try done. unfold pc_ok; cbn [arg pc]. eauto.
    + rewrite Hcount. destruct (decide (arg th = name)); lia.
  - done.
  - done.
Qed.

Lemma step_Inv (name : string) (a : Action) (cfg cfg' : Config) :
  Inv name cfg -> step a cfg = Some cfg' -> Inv name cfg'.
Proof.
  destruct a as [t|change]; cbn [step].
  - apply step_thread_Inv.
  - intros [Hex Hpc Hcount] [= <-]. by split.
Qed.

Lemma exec_Inv (name : string) (sched : list Action) (cfg cfg' : Config) :
  Inv name cfg -> exec sched cfg = Some cfg' -> Inv name cfg'.
Proof.
  revert cfg. induction sched as [|a sched IH]; intros cfg HI; cbn [exec].
  - by intros [= <-].
  - destruct (step a cfg) as [cfg1|] eqn:Hs; [|done].
    apply IH. by eapply step_Inv.
Qed.

Lemma start_Inv (name : string) (s : NppState) (names : list string) :
  symbol_map s !! name = None -> Inv name (start s names).
Proof.
  intros Hmiss. split; cbn [start shared symbol_mutex threads resolutions].
  - split; [|done]. intros t th Hl Hc.
    rewrite list_lookup_fmap in Hl.
    destruct (names !! t); [|done]. by injection Hl as <-.
  - intros t th Hl. rewrite list_lookup_fmap in Hl.
    destruct (names !! t); [|done]. by injection Hl as <-.
  - unfold cached. rewrite Hmiss. cbn.
    induction names as [|n names IH]; [done|].
    cbn [fmap list_fmap sum_list_with]. rewrite weight_unfold; cbn [arg pc].
    destruct (decide (n = name)); cbn in IH |- *; lia.
Qed.

(** A step changes no thread's argument. *)
Lemma step_args (a : Action) (cfg cfg' : Config) :
  step a cfg = Some cfg' -> arg <$> threads cfg' = arg <$> threads cfg.
Proof.
  assert (Hgoto : forall t th p,
            threads cfg !! t = Some th ->
            arg <$> goto t th p (threads cfg) = arg <$> threads cfg).
  { intros t th p Ht. unfold goto. rewrite list_fmap_insert. cbn [arg].
    apply list_insert_id. by rewrite list_lookup_fmap, Ht. }
  destruct a as [t|change]; cbn [step]; [|by intros [= <-]].
  unfold step_thread. destruct (threads cfg !! t) as [th|] eqn:Ht; [|done].
  destruct (pc th); try done.
  - destruct (symbol_mutex cfg); [done|]. intros [= <-]. by apply Hgoto.
  - intros [= <-]. by apply Hgoto.
  - destruct (NppLoadSymbol (arg th) (shared cfg)) as [[ptr|e] s'];
      intros [= <-]; by apply Hgoto.
  - intros [= <-]. by apply Hgoto.
  - intros [= <-]. by apply Hgoto.
Qed.

Lemma exec_args (sched : list Action) (cfg cfg' : Config) :
  exec sched cfg = Some cfg' -> arg <$> threads cfg' = arg <$> threads cfg.
Proof.
  revert cfg. induction sched as [|a sched IH]; intros cfg; cbn [exec].
  - by intros [= <-].
  - destruct (step a cfg) as [cfg1|] eqn:Hs; [|done].
    intros Hexec. rewrite (IH _ Hexec). by eapply step_args.
Qed.

Lemma start_args (s : NppState) (names : list string) :
  arg <$> threads (start s names) = names.
Proof.
  cbn [start threads]. rewrite <- list_fmap_compose.
  induction names as [|n names IH]; [done|]. cbn. by rewrite IH.
Qed.

Lemma sum_list_with_zero {A} (f : A -> nat) (l : list A) :
  (forall a, a ∈ l -> f a = 0%nat) -> sum_list_with f l = 0%nat.
Proof.
  induction l as [|a l IH]; intros Hz; [done|].
  cbn [sum_list_with]. rewrite (Hz a), IH; [done| |].
  - intros b Hb. apply Hz. by right.
  - by left.
Qed.

Lemma all_returned_spec (name : string) (cfg : Config) :
  all_returned name cfg = true ->
  forall th, th ∈ threads cfg -> arg th = name -> exists b, pc th = Done b.
Proof.
  unfold all_returned. rewrite forallb_forall. intros Hall th Hin Harg.
  apply list_elem_of_In in Hin. specialize (Hall th Hin).
  destruct (decide (arg th = name)); [|done].
  unfold has_returned in Hall. destruct (pc th); try done. eauto.
Qed.

Lemma forallb_false_elem {A} (f : A -> bool) (l : list A) :
  forallb f l = false -> exists a, a ∈ l /\ f a = false.
Proof.
  induction l as [|a l IH]; [done|]. cbn [forallb].
  destruct (f a) eqn:Hfa; cbn [andb]; intros Hl.
  - destruct (IH Hl) as (a' & Hin & Hfa'). exists a'. split; [by right|done].
  - exists a. split; [by left|done].
Qed.

(** A run never stops with threads still inside the function: the holder
    of the mutex can always move, and with the mutex free so can any thread
    that is still at the entry. *)
Lemma no_deadlock (name : string) (cfg : Config) :
  Inv name cfg -> all_left cfg = false ->
  exists t cfg', step_thread t cfg = Some cfg'.
Proof.
  intros [[Hown Hheld] _ _] Hleft.
  destruct (symbol_mutex cfg) as [t|] eqn:Hm.
  - destruct (Hheld t eq_refl) as (th & Ht & Hc). exists t.
    unfold step_thread. rewrite Ht.
    destruct (pc th); try done; eauto.
    destruct (NppLoadSymbol (arg th) (shared cfg)) as [[ptr|e] s']; eauto.
  - unfold all_left in Hleft.
    destruct (forallb_false_elem _ _ Hleft) as (th & Hin & Hl).
    apply list_elem_of_lookup in Hin. destruct Hin as [t Ht].
    exists t. unfold step_thread. rewrite Ht, Hm.
    destruct (pc th) eqn:Hp; try (unfold has_left in Hl; rewrite Hp in Hl; done);
      try (assert (in_critical (pc th) = true) as Hc by (by rewrite Hp);
           by specialize (Hown _ _ Ht Hc)).
    eauto.
Qed.

(** A thread that runs alone from the call to the exit does what the body
    [nppIsSymbolAvailable] does. *)
Fixpoint run_thread (fuel : nat) (t : nat) (cfg : Config) : Config :=
  match fuel with
  | O => cfg
  | S fuel' =>
      match step_thread t cfg with
      | Some cfg' => run_thread fuel' t cfg'
      | None => cfg
      end
  end.

Lemma solo_thread_runs_the_body (name : string) (s : NppState) :
  let cfg := run_thread 5 0 (start s [name]) in
  shared cfg = (nppIsSymbolAvailable name s).2
  /\ symbol_mutex cfg = None
  /\ threads cfg =
       [{| arg := name;
           pc := match (nppIsSymbolAvailable name s).1 with
                 | Returned b => Done b
                 | Aborted e => Raised e
                 end |}].
Proof.
  cbv zeta. destruct (symbol_map s !! name) as [v|] eqn:Hv.
  - rewrite (nppIsSymbolAvailable_hit _ _ _ Hv).
    cbn. rewrite Hv. by cbn.
  - rewrite (nppIsSymbolAvailable_miss _ _ Hv).
    cbn. rewrite Hv. cbn.
    by destruct (NppLoadSymbol name s) as [[ptr|e] s'].
Qed.

(** At most one thread is between its [lock_guard] and its exit. *)
Lemma one_thread_in_critical_section
    (name : string) (s : NppState) (names : list string)
    (sched : list Action) (cfg : Config) (t t' : nat) (th th' : Thread) :
  symbol_map s !! name = None ->
  exec sched (start s names) = Some cfg ->
  threads cfg !! t = Some th -> in_critical (pc th) = true ->
  threads cfg !! t' = Some th' -> in_critical (pc th') = true ->
  t = t'.
Proof.
  intros Hmiss Hexec Ht Hc Ht' Hc'.
  pose proof (exec_Inv name _ _ _ (start_Inv name s names Hmiss) Hexec)
    as [[Hown _] _ _].
  pose proof (Hown _ _ Ht Hc). pose proof (Hown _ _ Ht' Hc'). congruence.
Qed.

(** The statements a thread still has to run, at most. *)
Definition remaining (th : Thread) : nat :=
  match pc th with
  | AtEntry => 5 | AtFind => 4 | AtLoad => 3 | AtInsert _ => 2 | AtReturn _ => 1
  | Done _ | Raised _ => 0
  end%nat.

Lemma step_thread_remaining (t : nat) (cfg cfg' : Config) :
  step_thread t cfg = Some cfg' ->
  (sum_list_with remaining (threads cfg') < sum_list_with remaining (threads cfg))%nat.
Proof.
  unfold step_thread. destruct (threads cfg !! t) as [th|] eqn:Ht; [|done].
  assert (Hgoto : forall p,
            (remaining {| arg := arg th; pc := p |} < remaining th)%nat ->
            (sum_list_with remaining (goto t th p (threads cfg))
             < sum_list_with remaining (threads cfg))%nat).
  { intros p Hlt.
    pose proof (sum_list_with_insert remaining (threads cfg) t th
                  {| arg := arg th; pc := p |} Ht) as Hsum.
    unfold goto. lia. }
  unfold remaining in Hgoto. cbn [pc] in Hgoto.
  destruct (pc th) eqn:Hp; try done.
  - destruct (symbol_mutex cfg); [done|]. intros [= <-]. cbn [threads].
    apply Hgoto. lia.
  - intros [= <-]. cbn [threads]. apply Hgoto.
    destruct (symbol_map (shared cfg) !! arg th); lia.
  - destruct (NppLoadSymbol (arg th) (shared cfg)) as [[ptr|e] s'];
      intros [= <-]; cbn [threads]; apply Hgoto; lia.
  - intros [= <-]. cbn [threads]. apply Hgoto. lia.
  - intros [= <-]. cbn [threads]. apply Hgoto. lia.
Qed.

(** From wherever a run has got to, the threads can all be run to their
    exits. *)
Lemma every_run_completes (name : string) (cfg : Config) :
  Inv name cfg ->
  exists sched cfg', exec sched cfg = Some cfg' /\ all_left cfg' = true.
Proof.
  remember (sum_list_with remaining (threads cfg)) as n eqn:Hn.
  revert cfg Hn. induction n as [n IH] using lt_wf_ind. intros cfg Hn HI.
  destruct (all_left cfg) eqn:Hleft.
  - exists [], cfg. by split.
  - destruct (no_deadlock name cfg HI Hleft) as (t & cfg1 & Hstep).
    pose proof (step_thread_remaining _ _ _ Hstep) as Hlt.
    destruct (IH _ ltac:(subst n; exact Hlt) cfg1 eq_refl
                (step_thread_Inv name t cfg cfg1 HI Hstep))
      as (sched & cfg' & Hexec & Hdone).
    exists (Run t :: sched), cfg'. cbn [exec step]. by rewrite Hstep.
Qed.

(** C5 (amended).  Threads call [nppIsSymbolAvailable] concurrently, any
    number of them with [name], which is not cached when they call.  In every
    run in which all the calls for [name] have returned, [NppLoadSymbol(name)]
    was called exactly once, and the calls for [name] all returned the same
    boolean, the one the cache entry gives. *)
Theorem concurrent_calls_resolve_once_when_all_return
    (name : string) (s : NppState) (names : list string)
    (sched : list Action) (cfg : Config) :
  symbol_map s !! name = None ->
  name ∈ names ->
  exec sched (start s names) = Some cfg ->
  all_returned name cfg = true ->
  times name (resolutions cfg) = 1%nat
  /\ exists b, forall th, th ∈ threads cfg -> arg th = name -> pc th = Done b.
Proof.
  intros Hmiss Hin Hexec Hall.
  pose proof (exec_Inv name _ _ _ (start_Inv name s names Hmiss) Hexec)
    as [_ Hpc Hcount].
  pose proof (all_returned_spec _ _ Hall) as Hdone.
  assert (Hsome : exists th, th ∈ threads cfg /\ arg th = name).
  { pose proof (exec_args _ _ _ Hexec) as Hargs. rewrite start_args in Hargs.
    rewrite <- Hargs in Hin. apply list_elem_of_fmap in Hin.
    destruct Hin as (th & -> & Hth). eauto. }
  destruct Hsome as (th0 & Hin0 & Harg0).
  destruct (Hdone _ Hin0 Harg0) as [b0 Hb0].
  apply list_elem_of_lookup in Hin0. destruct Hin0 as [t0 Ht0].
  pose proof (Hpc _ _ Ht0) as Hok0. unfold pc_ok in Hok0.
  rewrite Hb0, Harg0 in Hok0. destruct Hok0 as (v & Hv & ->).
  split.
  - rewrite Hcount. unfold cached. rewrite Hv.
    rewrite sum_list_with_zero; [done|].
    intros th Hth. rewrite weight_unfold.
    destruct (decide (arg th = name)) as [Harg|]; [|done].
    destruct (Hdone _ Hth Harg) as [b ->]. done.
  - exists (negb (is_null v)). intros th Hth Harg.
    destruct (Hdone _ Hth Harg) as [b Hb]. rewrite Hb. f_equal.
    apply list_elem_of_lookup in Hth. destruct Hth as [t Ht].
    pose proof (Hpc _ _ Ht) as Hok. unfold pc_ok in Hok.
    rewrite Hb, Harg in Hok. destruct Hok as (v' & Hv' & ->). congruence.
Qed.

(** *** The version-qualified file names *)

(** X15.  [CUDA_VERSION] is 1000 times the toolkit's major version plus
    ten times its minor version.  The version-qualified file names carry the
    toolkit's major version exactly for CUDA 10 and CUDA 11: an older toolkit
    gets the names of CUDA 10 and a newer one those of CUDA 11. *)
Theorem versioned_names_carry_major_version_only_for_cuda_10_and_11 :
  (__NppcLibNameCuVer = "libnppc.so." +:+ pretty (CUDA_VERSION / 1000)
   /\ __NppiccLibNameCuVer = "libnppicc.so." +:+ pretty (CUDA_VERSION / 1000))
  <-> 10000 <= CUDA_VERSION < 12000.
Proof.
  assert (H10 : pretty 10 = "10"%string) by (by vm_compute).
  assert (H11 : pretty 11 = "11"%string) by (by vm_compute).
  split.
  - intros [Hc _]. unfold __NppcLibNameCuVer in Hc.
    destruct (Z.leb 11000 CUDA_VERSION) eqn:Hle.
    + apply Z.leb_le in Hle. cbn in Hc. injection Hc as Hc.
      change (pretty 11 = pretty (CUDA_VERSION / 1000)) in Hc. apply (inj pretty) in Hc.
      assert (CUDA_VERSION < 12000); [|lia].
      apply Z.nle_gt. intros Hge.
      pose proof (Z.div_le_mono 12000 CUDA_VERSION 1000 ltac:(lia) Hge) as Hd.
      change (12000 / 1000) with 12 in Hd. lia.
    + apply Z.leb_gt in Hle. cbn in Hc. injection Hc as Hc.
      change (pretty 10 = pretty (CUDA_VERSION / 1000)) in Hc. apply (inj pretty) in Hc.
      assert (10000 <= CUDA_VERSION); [|lia].
      apply Z.nlt_ge. intros Hlt.
      assert (CUDA_VERSION / 1000 < 10); [|lia].
      apply Z.div_lt_upper_bound; lia.
  - intros Hv.
    destruct (versioned_names_carry_major_version Hv) as [(-> & -> & ->)|(-> & -> & ->)].
    + by rewrite H10.
    + by rewrite H11.
Qed.

(** *** The library statics over the life of the process *)

(** A static that is initialised holds a handle that is not null. *)
Definition initialised_null (static : option pointer) : bool :=
  match static with
  | Some h => is_null h
  | None => false
  end.

Definition statics_ok (s : NppState) : Prop :=
  initialised_null (nppcDrvLib s) = false /\ initialised_null (nppiccDrvLib s) = false.

(** Both libraries are loaded, with handles [c] and [i]. *)
Definition loaded (c i : pointer) (s : NppState) : Prop :=
  nppcDrvLib s = Some c /\ nppiccDrvLib s = Some i
  /\ is_null c = false /\ is_null i = false.

Definition is_dlsym (call : DlCall) : bool :=
  match call with Call_dlsym _ _ => true | Call_dlopen _ _ => false end.

(** The names asked of [nppIsSymbolAvailable] in a sequence of activities. *)
Definition asked (acts : list Activity) : list string :=
  omap (fun a => match a with
                 | Act_nppIsSymbolAvailable name => Some name
                 | _ => None
                 end) acts.

(** The three ways a call of [NppLoadSymbol] can go. *)
Lemma NppLoadSymbol_cases (name : string) (s : NppState) :
  statics_ok s ->
  let c := library_handle (nppcDrvLib s) __NppcLibNameCuVer __NppcLibName (os s) in
  let i := library_handle (nppiccDrvLib s) __NppiccLibNameCuVer __NppiccLibName (host c) in
  (nppcDrvLib s = None /\ is_null (handle c) = true)
  \/ (is_null (handle c) = false /\ nppiccDrvLib s = None /\ is_null (handle i) = true)
  \/ (is_null (handle c) = false /\ is_null (handle i) = false).
Proof.
  intros [Hc Hi]. cbv zeta.
  destruct (nppcDrvLib s) as [hc|] eqn:Hsc; cbn [library_handle handle host].
  - cbn in Hc. right.
    destruct (nppiccDrvLib s) as [hi|] eqn:Hsi; cbn [library_handle handle].
    + cbn in Hi. by right.
    + destruct (is_null (handle (open_versioned_then_plain
                                   __NppiccLibNameCuVer __NppiccLibName _))) eqn:Hn.
      * by left.
      * by right.
  - destruct (is_null (handle (open_versioned_then_plain
                                 __NppcLibNameCuVer __NppcLibName (os s)))) eqn:Hn.
    + by left.
    + right.
      destruct (nppiccDrvLib s) as [hi|] eqn:Hsi; cbn [library_handle handle].
      * cbn in Hi. by right.
      * destruct (is_null (handle (open_versioned_then_plain
                                     __NppiccLibNameCuVer __NppiccLibName _))) eqn:Hn'.
        -- by left.
        -- by right.
Qed.

Lemma NppLoadSymbol_statics_ok (name : string) (s : NppState) :
  statics_ok s -> statics_ok (NppLoadSymbol name s).2.
Proof.
  intros Hok. pose proof Hok as [Hc Hi].
  destruct (NppLoadSymbol_cases name s Hok) as [[Hs Hn]|[(Hn & Hs & Hn')|[Hn Hn']]].
  - rewrite (NppLoadSymbol_nppc_missing name s Hs Hn). by split.
  - rewrite (NppLoadSymbol_nppicc_missing name s Hn Hs Hn'). by split.
  - rewrite (NppLoadSymbol_loaded name s Hn Hn'). by split.
Qed.

Lemma nppIsSymbolAvailable_statics_ok (name : string) (s : NppState) :
  statics_ok s -> statics_ok (nppIsSymbolAvailable name s).2.
Proof.
  intros Hok. destruct (symbol_map s !! name) as [v|] eqn:Hv.
  - by rewrite (nppIsSymbolAvailable_hit _ _ _ Hv).
  - rewrite (nppIsSymbolAvailable_miss _ _ Hv).
    pose proof (NppLoadSymbol_statics_ok name s Hok) as Hok'.
    by destruct (NppLoadSymbol name s) as [[ptr|e] s'].
Qed.

Lemma perform_statics_ok (a : Activity) (s : NppState) :
  statics_ok s -> statics_ok (perform a s).
Proof.
  destruct a as [name|name|change]; cbn [perform].
  - apply nppIsSymbolAvailable_statics_ok.
  - apply NppLoadSymbol_statics_ok.
  - done.
Qed.

(** X7.  A library static never holds a null handle: if none does, none
    does after any calls of the two entry points and any changes of the
    host.  Hence whenever [NppLoadSymbol] returns, both libraries are loaded
    with non-null handles (the null-handle guards before [dlsym] never skip a
    lookup). *)
Theorem library_statics_never_hold_null (s : NppState) (acts : list Activity) :
  statics_ok s ->
  statics_ok (perform_all acts s)
  /\ forall (name : string) (r : pointer) (s' : NppState),
       NppLoadSymbol name (perform_all acts s) = (Returned r, s') ->
       exists c i, loaded c i s'.
Proof.
  intros Hok.
  assert (Hall : statics_ok (perform_all acts s)).
  { revert s Hok. induction acts as [|a acts IH]; intros s Hok; [done|].
    cbn. apply IH. by apply perform_statics_ok. }
  split; [done|]. intros name r s' Hret.
  destruct (NppLoadSymbol_cases name _ Hall) as [[Hs Hn]|[(Hn & Hs & Hn')|[Hn Hn']]].
  - by rewrite (NppLoadSymbol_nppc_missing name _ Hs Hn) in Hret.
  - by rewrite (NppLoadSymbol_nppicc_missing name _ Hn Hs Hn') in Hret.
  - rewrite (NppLoadSymbol_loaded name _ Hn Hn') in Hret.
    injection Hret as _ <-. eexists _, _. by repeat split.
Qed.

Lemma NppLoadSymbol_when_loaded (c i : pointer) (name : string) (s : NppState) :
  loaded c i s ->
  exists r new,
    (NppLoadSymbol name s).1 = Returned r
    /\ loaded c i (NppLoadSymbol name s).2
    /\ dl_calls (NppLoadSymbol name s).2 = dl_calls s ++ new
    /\ forallb is_dlsym new = true.
Proof.
  intros (Hc & Hi & Hnc & Hni).
  assert (H1 : is_null (handle (library_handle (nppcDrvLib s)
                 __NppcLibNameCuVer __NppcLibName (os s))) = false)
    by (by rewrite Hc).
  assert (H2 : is_null (handle (library_handle (nppiccDrvLib s)
                 __NppiccLibNameCuVer __NppiccLibName
                 (host (library_handle (nppcDrvLib s)
                    __NppcLibNameCuVer __NppcLibName (os s))))) = false)
    by (by rewrite Hi).
  rewrite (NppLoadSymbol_loaded name s H1 H2). rewrite Hc, Hi.
  cbn [library_handle handle host opens fst snd dl_calls app].
  eexists _, _. split; [reflexivity|]. split; [by repeat split|].
  split; [reflexivity|].
  by destruct (is_null (dlsym i name (os s)).1).
Qed.

Lemma perform_when_loaded (c i : pointer) (a : Activity) (s : NppState) :
  loaded c i s ->
  loaded c i (perform a s)
  /\ exists new, dl_calls (perform a s) = dl_calls s ++ new
                 /\ forallb is_dlsym new = true.
Proof.
  intros Hl. destruct a as [name|name|change]; cbn [perform].
  - destruct (symbol_map s !! name) as [v|] eqn:Hv.
    + rewrite (nppIsSymbolAvailable_hit _ _ _ Hv). cbn [snd].
      split; [done|]. exists []. by rewrite app_nil_r.
    + rewrite (nppIsSymbolAvailable_miss _ _ Hv).
      destruct (NppLoadSymbol_when_loaded c i name s Hl)
        as (r & new & Hr & Hl' & Hcalls & Hnew).
      destruct (NppLoadSymbol name s) as [[ptr|e] s']; [|done].
      cbn [fst snd] in *. split; [done|]. by exists new.
  - destruct (NppLoadSymbol_when_loaded c i name s Hl)
      as (r & new & _ & Hl' & Hcalls & Hnew).
    split; [done|]. by exists new.
  - split; [done|]. exists []. by rewrite app_nil_r.
Qed.

(** X8.  Once both libraries are loaded they stay loaded with the same
    handles, whatever is called and whatever happens on the host: no later
    call opens a library (every further linker call is a [dlsym]), and
    neither entry point throws any more. *)
Theorem loaded_libraries_are_never_reopened
    (c i : pointer) (s : NppState) (acts : list Activity) :
  loaded c i s ->
  let s' := perform_all acts s in
  loaded c i s'
  /\ (exists new, dl_calls s' = dl_calls s ++ new /\ forallb is_dlsym new = true)
  /\ forall name : string,
       (exists b, (nppIsSymbolAvailable name s').1 = Returned b)
       /\ (exists r, (NppLoadSymbol name s').1 = Returned r).
Proof.
  intros Hl. cbv zeta.
  assert (Hall : loaded c i (perform_all acts s)
                 /\ exists new, dl_calls (perform_all acts s) = dl_calls s ++ new
                                /\ forallb is_dlsym new = true).
  { revert s Hl. induction acts as [|a acts IH]; intros s Hl.
    - split; [done|]. exists []. by rewrite app_nil_r.
    - change (perform_all (a :: acts) s) with (perform_all acts (perform a s)).
      destruct (perform_when_loaded c i a s Hl) as (Hl1 & new1 & Hc1 & Hn1).
      destruct (IH _ Hl1) as (Hl2 & new2 & Hc2 & Hn2).
      split; [done|]. exists (new1 ++ new2).
      rewrite Hc2, Hc1, <- app_assoc. split; [done|].
      by rewrite forallb_app, Hn1, Hn2. }
  destruct Hall as [Hl' Hnew]. split; [done|]. split; [done|].
  intros name.
  destruct (NppLoadSymbol_when_loaded c i name _ Hl') as (r & new & Hr & _).
  split; [|by exists r].
  destruct (symbol_map (perform_all acts s) !! name) as [v|] eqn:Hv.
  - rewrite (nppIsSymbolAvailable_hit _ _ _ Hv). eauto.
  - rewrite (nppIsSymbolAvailable_miss _ _ Hv).
    destruct (NppLoadSymbol name (perform_all acts s)) as [[ptr|e] s1]; [|done].
    eauto.
Qed.

(** X9.  A call of [nppIsSymbolAvailable] that throws has thrown one of
    the two library errors; it leaves the cache as it was and the static of
    the library that failed uninitialised, so that the next call tries that
    library again.  When it was libnppicc that failed, libnppc stays
    loaded. *)
Theorem throwing_call_caches_nothing_and_keeps_libnppc
    (name : string) (s s1 : NppState) (e : exception) :
  statics_ok s ->
  nppIsSymbolAvailable name s = (Aborted e, s1) ->
  symbol_map s1 = symbol_map s
  /\ ((e = nppc_error /\ nppcDrvLib s1 = None /\ nppiccDrvLib s1 = nppiccDrvLib s)
      \/ (e = nppicc_error /\ nppiccDrvLib s1 = None
          /\ exists c, nppcDrvLib s1 = Some c /\ is_null c = false)).
Proof.
  intros Hok Hthrow.
  destruct (symbol_map s !! name) as [v|] eqn:Hv.
  { by rewrite (nppIsSymbolAvailable_hit _ _ _ Hv) in Hthrow. }
  rewrite (nppIsSymbolAvailable_miss _ _ Hv) in Hthrow.
  destruct (NppLoadSymbol_cases name s Hok) as [[Hs Hn]|[(Hn & Hs & Hn')|[Hn Hn']]].
  - rewrite (NppLoadSymbol_nppc_missing name s Hs Hn) in Hthrow.
    injection Hthrow as <- <-. split; [done|]. left. by rewrite <- Hs.
  - rewrite (NppLoadSymbol_nppicc_missing name s Hn Hs Hn') in Hthrow.
    injection Hthrow as <- <-. split; [done|]. right.
    split; [done|]. split; [done|]. eauto.
  - by rewrite (NppLoadSymbol_loaded name s Hn Hn') in Hthrow.
Qed.

(** X10.  With both libraries loaded, after any sequence of activities the
    cache holds the names it held before and the names asked of
    [nppIsSymbolAvailable] in between, and no others. *)
Theorem cache_holds_exactly_the_names_asked
    (c i : pointer) (s : NppState) (acts : list Activity) :
  loaded c i s ->
  dom (symbol_map (perform_all acts s)) = dom (symbol_map s) ∪ list_to_set (asked acts).
Proof.
  revert s. induction acts as [|a acts IH]; intros s Hl.
  - change (list_to_set (asked [])) with (∅ : gset string).
    by rewrite (right_id_L ∅ (∪)).
  - change (perform_all (a :: acts) s) with (perform_all acts (perform a s)).
    destruct (perform_when_loaded c i a s Hl) as [Hl1 _].
    rewrite (IH _ Hl1). clear IH.
    destruct a as [name|name|change].
    + change (list_to_set (asked (Act_nppIsSymbolAvailable name :: acts)))
        with ({[name]} ∪ list_to_set (asked acts) : gset string).
      rewrite (assoc_L (∪)). f_equal. cbn [perform].
      destruct (symbol_map s !! name) as [v|] eqn:Hv.
      * rewrite (nppIsSymbolAvailable_hit _ _ _ Hv). cbn [snd].
        symmetry. rewrite (comm_L (∪)). apply subseteq_union_1_L.
        apply singleton_subseteq_l, elem_of_dom. eauto.
      * rewrite (nppIsSymbolAvailable_miss _ _ Hv).
        destruct (NppLoadSymbol_when_loaded c i name s Hl) as (r & new & Hr & _).
        pose proof (NppLoadSymbol_symbol_map name s) as Hm.
        destruct (NppLoadSymbol name s) as [[ptr|e] s']; [|done].
        cbn [snd] in *. unfold symbol_map_insert; cbn [symbol_map].
        rewrite Hm, Hv, dom_insert_L. apply (comm_L (∪)).
    + change (asked (Act_NppLoadSymbol name :: acts)) with (asked acts).
      cbn [perform]. by rewrite NppLoadSymbol_symbol_map.
    + done.
Qed.

(** *** More on the threads *)

(** What every run keeps, whatever the cache held at the start. *)
Definition Safe (cfg : Config) : Prop :=
  Exclusive (symbol_mutex cfg) (threads cfg)
  /\ forall t th, threads cfg !! t = Some th -> pc_ok (symbol_map (shared cfg)) th.

Lemma start_Safe (s : NppState) (names : list string) : Safe (start s names).
Proof.
  split; cbn [start shared symbol_mutex threads].
  - split; [|done]. intros t th Hl Hc.
    rewrite list_lookup_fmap in Hl.
    destruct (names !! t); [|done]. by injection Hl as <-.
  - intros t th Hl. rewrite list_lookup_fmap in Hl.
    destruct (names !! t); [|done]. by injection Hl as <-.
Qed.

Lemma step_thread_Safe (t : nat) (cfg cfg' : Config) :
  Safe cfg -> step_thread t cfg = Some cfg' -> Safe cfg'.
Proof.
  intros [Hex Hpc] Hstep. unfold step_thread in Hstep.
  destruct (threads cfg !! t) as [th|] eqn:Ht; [|done].
  pose proof (Hpc _ _ Ht) as Hth. unfold pc_ok in Hth.
  destruct (pc th) as [| | |ptr|v|b|e] eqn:Hp.
  - destruct (symbol_mutex cfg) eqn:Hm; [done|]. injection Hstep as <-.
    split; cbn [shared symbol_mutex threads].
    + by apply Exclusive_enter.
    + by apply Inv_pc_goto.
  - injection Hstep as <-. split; cbn [shared symbol_mutex threads].
    + apply Exclusive_stay; try done; [by rewrite Hp|].
      by destruct (symbol_map (shared cfg) !! arg th).
    + apply Inv_pc_goto; try done. unfold pc_ok; cbn [arg pc].
      by destruct (symbol_map (shared cfg) !! arg th) eqn:Hv.
  - pose proof (NppLoadSymbol_symbol_map (arg th) (shared cfg)) as Hmap.
    destruct (NppLoadSymbol (arg th) (shared cfg)) as [[ptr|e] s'];
      cbn [snd] in Hmap; injection Hstep as <-;
      split; cbn [shared symbol_mutex threads]; rewrite ?Hmap.
    + apply Exclusive_stay; try done. by rewrite Hp.
    + by apply Inv_pc_goto.
    + eapply Exclusive_leave; try done. by rewrite Hp.
    + by apply Inv_pc_goto.
  - injection Hstep as <-. split; cbn [shared symbol_mutex threads].
    + apply Exclusive_stay; try done. by rewrite Hp.
    + intros t' th' Hl.
      destruct (goto_lookup_cases _ _ _ _ _ _ Ht Hl) as [[-> ->]|[Hne Hl']].
      * unfold pc_ok; cbn [arg pc]. by apply symbol_map_insert_lookup.
      * apply pc_ok_outside with (m := symbol_map (shared cfg)).
        -- intros k u Hk. by apply symbol_map_insert_keeps.
        -- eapply Exclusive_others; [exact Hex|exact Ht| |exact Hl'|exact Hne].
           by rewrite Hp.
        -- eauto.
  - injection Hstep as <-. split; cbn [shared symbol_mutex threads].
    + eapply Exclusive_leave; try done. by rewrite Hp.
    + apply Inv_pc_goto; try done. unfold pc_ok; cbn [arg pc]. eauto.
  - done.
  - done.
Qed.

Lemma step_Safe (a : Action) (cfg cfg' : Config) :
  Safe cfg -> step a cfg = Some cfg' -> Safe cfg'.
Proof.
  destruct a as [t|change]; cbn [step].
  - apply step_thread_Safe.
  - intros [Hex Hpc] [= <-]. by split.
Qed.

Lemma exec_Safe (sched : list Action) (cfg cfg' : Config) :
  Safe cfg -> exec sched cfg = Some cfg' -> Safe cfg'.
Proof.
  revert cfg. induction sched as [|a sched IH]; intros cfg HS; cbn [exec].
  - by intros [= <-].
  - destruct (step a cfg) as [cfg1|] eqn:Hs; [|done].
    apply IH. by eapply step_Safe.
Qed.

(** X11.  In every run, a thread that is between taking the [lock_guard]
    and leaving [nppIsSymbolAvailable] holds [symbol_mutex], and every other
    thread is outside: still at the entry, or gone. *)
Theorem symbol_mutex_admits_one_thread
    (s : NppState) (names : list string) (sched : list Action) (cfg : Config)
    (t : nat) (th : Thread) :
  exec sched (start s names) = Some cfg ->
  threads cfg !! t = Some th ->
  in_critical (pc th) = true ->
  symbol_mutex cfg = Some t
  /\ forall t' th', t' <> t -> threads cfg !! t' = Some th' ->
       in_critical (pc th') = false.
Proof.
  intros Hexec Ht Hc.
  pose proof (exec_Safe _ _ _ (start_Safe s names) Hexec) as [Hex _].
  split; [by apply (proj1 Hex t th)|].
  intros t' th' Hne Ht'.
  exact (Exclusive_others _ _ _ _ _ _ Hex Ht Hc Ht' Hne).
Qed.

(** The number of thread steps in a schedule. *)
Definition thread_steps (sched : list Action) : nat :=
  length (List.filter (fun a => match a with Run _ => true | Host _ => false end) sched).

Lemma exec_remaining (sched : list Action) (cfg cfg' : Config) :
  exec sched cfg = Some cfg' ->
  (thread_steps sched + sum_list_with remaining (threads cfg')
   <= sum_list_with remaining (threads cfg))%nat.
Proof.
  revert cfg. induction sched as [|a sched IH]; intros cfg; cbn [exec].
  - intros [= <-]. cbn. lia.
  - destruct (step a cfg) as [cfg1|] eqn:Hs; [|done]. intros Hexec.
    specialize (IH _ Hexec). destruct a as [t|change]; cbn [step] in Hs.
    + pose proof (step_thread_remaining _ _ _ Hs).
      unfold thread_steps in *. cbn [List.filter length]. lia.
    + injection Hs as <-. unfold thread_steps in *. cbn [List.filter threads] in *. lia.
Qed.

Lemma start_remaining (s : NppState) (names : list string) :
  sum_list_with remaining (threads (start s names)) = (5 * length names)%nat.
Proof.
  cbn [start threads]. induction names as [|n names IH]; [done|].
  cbn [fmap list_fmap sum_list_with length]. cbn [fmap] in IH. rewrite IH.
  unfold remaining; cbn [pc]. lia.
Qed.

Lemma Safe_progress (cfg : Config) :
  Safe cfg -> all_left cfg = false ->
  exists t cfg', step_thread t cfg = Some cfg'.
Proof.
  intros [[Hown Hheld] _] Hleft.
  destruct (symbol_mutex cfg) as [t|] eqn:Hm.
  - destruct (Hheld t eq_refl) as (th & Ht & Hc). exists t.
    unfold step_thread. rewrite Ht.
    destruct (pc th); try done; eauto.
    destruct (NppLoadSymbol (arg th) (shared cfg)) as [[ptr|e] s']; eauto.
  - destruct (forallb_false_elem _ _ Hleft) as (th & Hin & Hl).
    apply list_elem_of_lookup in Hin. destruct Hin as [t Ht].
    exists t. unfold step_thread. rewrite Ht, Hm.
    destruct (pc th) eqn:Hp; try (unfold has_left in Hl; rewrite Hp in Hl; done);
      try (assert (in_critical (pc th) = true) as Hc by (by rewrite Hp);
           by specialize (Hown _ _ Ht Hc)).
    eauto.
Qed.

Lemma Safe_completes (cfg : Config) :
  Safe cfg ->
  exists sched cfg', exec sched cfg = Some cfg' /\ all_left cfg' = true.
Proof.
  remember (sum_list_with remaining (threads cfg)) as n eqn:Hn.
  revert cfg Hn. induction n as [n IH] using lt_wf_ind. intros cfg Hn HS.
  destruct (all_left cfg) eqn:Hleft.
  - exists [], cfg. by split.
  - destruct (Safe_progress cfg HS Hleft) as (t & cfg1 & Hstep).
    pose proof (step_thread_remaining _ _ _ Hstep) as Hlt.
    destruct (IH _ ltac:(subst n; exact Hlt) cfg1 eq_refl
                (step_thread_Safe t cfg cfg1 HS Hstep))
      as (sched & cfg' & Hexec & Hdone).
    exists (Run t :: sched), cfg'. cbn [exec step]. by rewrite Hstep.
Qed.

(** X12.  No run goes on for ever and none gets stuck: a run of N callers
    contains at most 5 N thread steps (a thread runs at most five
    statements), and from wherever it has got to it can be continued until
    every thread has left the function - the mutex is always released. *)
Theorem runs_are_bounded_and_never_stuck
    (s : NppState) (names : list string) (sched : list Action) (cfg : Config) :
  exec sched (start s names) = Some cfg ->
  (thread_steps sched <= 5 * length names)%nat
  /\ exists sched' cfg',
       exec sched' cfg = Some cfg'
       /\ all_left cfg' = true
       /\ symbol_mutex cfg' = None.
Proof.
  intros Hexec. split.
  - pose proof (exec_remaining _ _ _ Hexec) as Hle.
    rewrite start_remaining in Hle. lia.
  - pose proof (exec_Safe _ _ _ (start_Safe s names) Hexec) as HS.
    destruct (Safe_completes cfg HS) as (sched' & cfg' & Hexec' & Hleft).
    exists sched', cfg'. split; [done|]. split; [done|].
    pose proof (exec_Safe _ _ _ HS Hexec') as [[_ Hheld] _].
    destruct (symbol_mutex cfg') as [t|]; [|done].
    destruct (Hheld t eq_refl) as (th & Ht & Hc).
    unfold all_left in Hleft. rewrite forallb_forall in Hleft.
    assert (Hin : In th (threads cfg'))
      by (apply list_elem_of_In, list_elem_of_lookup; eauto).
    specialize (Hleft _ Hin). unfold has_left in Hleft.
    by destruct (pc th).
Qed.

(** The calls for [name] that have left by an exception. *)
Definition thrown (name : string) (cfg : Config) : nat :=
  length (List.filter
            (fun th => bool_decide (arg th = name)
                       && match pc th with Raised _ => true | _ => false end)
            (threads cfg)).

Lemma weight_when_left (name : string) (ths : list Thread) :
  forallb has_left ths = true ->
  sum_list_with (weight name) ths =
    length (List.filter
              (fun th => bool_decide (arg th = name)
                         && match pc th with Raised _ => true | _ => false end) ths).
Proof.
  induction ths as [|th ths IH]; [done|].
  cbn [forallb sum_list_with List.filter]. intros Hl.
  apply andb_true_iff in Hl as [Hth Hl]. rewrite (IH Hl), weight_unfold.
  unfold has_left in Hth.
  destruct (decide (arg th = name)) as [Heq|Hne].
  - rewrite (bool_decide_eq_true_2 _ Heq). by destruct (pc th).
  - by rewrite (bool_decide_eq_false_2 _ Hne).
Qed.

(** X13.  Threads call concurrently and [name] is not cached when they
    call.  Once all have left, [NppLoadSymbol(name)] has been called once for
    each call for [name] that threw, and once more if [name] is now cached -
    which it is when some call for [name] returned. *)
Theorem resolutions_are_one_per_throw_and_one_for_the_rest
    (name : string) (s : NppState) (names : list string)
    (sched : list Action) (cfg : Config) :
  symbol_map s !! name = None ->
  exec sched (start s names) = Some cfg ->
  all_left cfg = true ->
  times name (resolutions cfg)
    = (thrown name cfg + cached name (symbol_map (shared cfg)))%nat
  /\ ((exists th b, th ∈ threads cfg /\ arg th = name /\ pc th = Done b) ->
      cached name (symbol_map (shared cfg)) = 1%nat).
Proof.
  intros Hmiss Hexec Hleft.
  pose proof (exec_Inv name _ _ _ (start_Inv name s names Hmiss) Hexec)
    as [_ Hpc Hcount].
  split.
  - rewrite Hcount. unfold thrown. by rewrite (weight_when_left name _ Hleft).
  - intros (th & b & Hin & Harg & Hb).
    apply list_elem_of_lookup in Hin. destruct Hin as [t Ht].
    pose proof (Hpc _ _ Ht) as Hok. unfold pc_ok in Hok.
    rewrite Hb, Harg in Hok. destruct Hok as (v & Hv & _).
    unfold cached. by rewrite Hv.
Qed.

(** *** Concurrent calls as a sequence of calls

    What one thread after another would get: the answers of the calls of
    [nppIsSymbolAvailable] in a sequence of activities, each with its
    argument, in order. *)
Definition Answer : Type := string * Outcome exception bool.

Definition answers_one (a : Activity) (s : NppState) : list Answer :=
  match a with
  | Act_nppIsSymbolAvailable name => [(name, (nppIsSymbolAvailable name s).1)]
  | _ => []
  end.

Fixpoint answers (acts : list Activity) (s : NppState) : list Answer :=
  match acts with
  | [] => []
  | a :: acts' => answers_one a s ++ answers acts' (perform a s)
  end.

(** The changes of the host in a sequence of activities, and in a
    schedule, in order. *)
Definition host_changes (acts : list Activity) : list (OS -> OS) :=
  omap (fun a => match a with Act_host change => Some change | _ => None end) acts.

Definition scheduled_changes (sched : list Action) : list (OS -> OS) :=
  omap (fun a => match a with Host change => Some change | Run _ => None end) sched.

Definition no_direct_load (acts : list Activity) : bool :=
  forallb (fun a => match a with Act_NppLoadSymbol _ => false | _ => true end) acts.

(** The answer a thread has got. *)
Definition answer_of (th : Thread) : option Answer :=
  match pc th with
  | Done b => Some (arg th, Returned b)
  | Raised e => Some (arg th, Aborted e)
  | _ => None
  end.

(** The answer a thread has got or is bound to get: after the call of
    [NppLoadSymbol], or after a [find] that hit, it is settled. *)
Definition promised (th : Thread) : option Answer :=
  match pc th with
  | AtInsert p | AtReturn p => Some (arg th, Returned (negb (is_null p)))
  | Done b => Some (arg th, Returned b)
  | Raised e => Some (arg th, Aborted e)
  | AtEntry | AtFind | AtLoad => None
  end.

(** The shared state with the pending [insert], if a thread is about to
    make one, already made. *)
Definition view (cfg : Config) (v : NppState) : Prop :=
  (exists t th p,
     threads cfg !! t = Some th /\ pc th = AtInsert p
     /\ v = symbol_map_insert (arg th) p (shared cfg))
  \/ ((forall t th p, threads cfg !! t = Some th -> pc th <> AtInsert p)
      /\ v = shared cfg).

Definition Lin (s0 : NppState) (hs : list (OS -> OS)) (cfg : Config) : Prop :=
  exists acts,
    host_changes acts = hs
    /\ no_direct_load acts = true
    /\ view cfg (perform_all acts s0)
    /\ answers acts s0 ≡ₚ omap promised (threads cfg).

Lemma perform_all_snoc (acts : list Activity) (a : Activity) (s : NppState) :
  perform_all (acts ++ [a]) s = perform a (perform_all acts s).
Proof. unfold perform_all. by rewrite fold_left_app. Qed.

Lemma answers_snoc (acts : list Activity) (a : Activity) (s : NppState) :
  answers (acts ++ [a]) s = answers acts s ++ answers_one a (perform_all acts s).
Proof.
  revert s. induction acts as [|a0 acts IH]; intros s.
  - cbn [app answers perform_all fold_left]. by rewrite app_nil_r.
  - change ((a0 :: acts) ++ [a]) with (a0 :: (acts ++ [a])).
    cbn [answers]. rewrite IH.
    change (perform_all (a0 :: acts) s) with (perform_all acts (perform a0 s)).
    by rewrite app_assoc.
Qed.

Lemma host_changes_snoc (acts : list Activity) (a : Activity) :
  host_changes (acts ++ [a]) = host_changes acts ++ host_changes [a].
Proof. unfold host_changes. by rewrite omap_app. Qed.

Lemma no_direct_load_snoc (acts : list Activity) (a : Activity) :
  no_direct_load acts = true -> no_direct_load [a] = true ->
  no_direct_load (acts ++ [a]) = true.
Proof. unfold no_direct_load. rewrite forallb_app. by intros -> ->. Qed.

Lemma omap_cons_eq {A B} (f : A -> option B) (a : A) (l : list A) :
  omap f (a :: l) = match f a with Some b => b :: omap f l | None => omap f l end.
Proof. reflexivity. Qed.

Lemma omap_insert_same {A B} (f : A -> option B) (l : list A) (t : nat) (a a' : A) :
  l !! t = Some a -> f a' = f a -> omap f (<[t := a']> l) = omap f l.
Proof.
  revert t. induction l as [|b l IH]; intros [|t] Ht Hf; try done.
  - injection Ht as ->. change (<[0%nat := a']> (a :: l)) with (a' :: l).
    by rewrite !omap_cons_eq, Hf.
  - change (l !! t = Some a) in Ht.
    change (<[S t := a']> (b :: l)) with (b :: <[t := a']> l).
    by rewrite !omap_cons_eq, (IH t Ht Hf).
Qed.

Lemma omap_insert_new {A B} (f : A -> option B) (l : list A) (t : nat) (a a' : A) (x : B) :
  l !! t = Some a -> f a = None -> f a' = Some x ->
  omap f (<[t := a']> l) ≡ₚ omap f l ++ [x].
Proof.
  revert t. induction l as [|b l IH]; intros [|t] Ht Hn Hs; try done.
  - injection Ht as ->. change (<[0%nat := a']> (a :: l)) with (a' :: l).
    rewrite !omap_cons_eq, Hn, Hs. apply Permutation_cons_append.
  - change (l !! t = Some a) in Ht.
    change (<[S t := a']> (b :: l)) with (b :: <[t := a']> l).
    rewrite !omap_cons_eq. specialize (IH t Ht Hn Hs).
    destruct (f b) as [y|]; [|done]. cbn [app]. by constructor.
Qed.

(** When the mutex is free, or held by thread [t], no other thread is
    about to insert. *)
Lemma no_insert_elsewhere (m : option nat) (ths : list Thread) (t : nat) (th : Thread) :
  Exclusive m ths -> ths !! t = Some th ->
  in_critical (pc th) = true \/ m = None ->
  forall t' th' p, t' <> t -> ths !! t' = Some th' -> pc th' <> AtInsert p.
Proof.
  intros Hex Ht Hor t' th' p Hne Ht' Hp.
  assert (Hc' : in_critical (pc th') = true) by (by rewrite Hp).
  destruct Hor as [Hc|Hm].
  - pose proof (Exclusive_others _ _ _ _ _ _ Hex Ht Hc Ht' Hne). congruence.
  - pose proof (proj1 Hex _ _ Ht' Hc'). congruence.
Qed.

Lemma view_shared (cfg : Config) (v : NppState) (t : nat) (th : Thread) :
  Exclusive (symbol_mutex cfg) (threads cfg) ->
  threads cfg !! t = Some th ->
  in_critical (pc th) = true \/ symbol_mutex cfg = None ->
  (forall p, pc th <> AtInsert p) ->
  view cfg v -> v = shared cfg.
Proof.
  intros Hex Ht Hor Hnot [(t' & th' & p & Ht' & Hp & _)|[_ ->]]; [|done].
  destruct (decide (t' = t)) as [->|Hne].
  - rewrite Ht in Ht'. injection Ht' as <-. by destruct (Hnot p).
  - by destruct (no_insert_elsewhere _ _ _ _ Hex Ht Hor t' th' p Hne Ht').
Qed.

Lemma view_pending (cfg : Config) (v : NppState) (t : nat) (th : Thread) (p : pointer) :
  Exclusive (symbol_mutex cfg) (threads cfg) ->
  threads cfg !! t = Some th -> pc th = AtInsert p ->
  view cfg v -> v = symbol_map_insert (arg th) p (shared cfg).
Proof.
  intros Hex Ht Hp [(t' & th' & p' & Ht' & Hp' & ->)|[Hnone _]].
  - destruct (decide (t' = t)) as [->|Hne].
    + rewrite Ht in Ht'. injection Ht' as <-. congruence.
    + assert (Hc : in_critical (pc th) = true) by (by rewrite Hp).
      by destruct (no_insert_elsewhere _ _ _ _ Hex Ht (or_introl Hc) t' th' p' Hne Ht').
  - by destruct (Hnone _ _ _ Ht Hp).
Qed.

(** After thread [t] has moved to a statement other than [insert], no
    thread is about to insert. *)
Lemma goto_no_insert (m : option nat) (ths : list Thread) (t : nat) (th : Thread) (q : Pc) :
  Exclusive m ths -> ths !! t = Some th ->
  in_critical (pc th) = true \/ m = None ->
  (forall p, q <> AtInsert p) ->
  forall t' th' p, goto t th q ths !! t' = Some th' -> pc th' <> AtInsert p.
Proof.
  intros Hex Ht Hor Hq t' th' p Hl.
  destruct (goto_lookup_cases _ _ _ _ _ _ Ht Hl) as [[-> ->]|[Hne Hl']].
  - apply Hq.
  - by apply (no_insert_elsewhere _ _ _ _ Hex Ht Hor t' th' p Hne Hl').
Qed.

Lemma step_thread_Lin (s0 : NppState) (hs : list (OS -> OS)) (t : nat)
    (cfg cfg' : Config) :
  Safe cfg -> Lin s0 hs cfg -> step_thread t cfg = Some cfg' -> Lin s0 hs cfg'.
Proof.
  intros [Hex Hpc] (acts & Hh & Hd & Hv & Ha) Hstep. unfold step_thread in Hstep.
  destruct (threads cfg !! t) as [th|] eqn:Ht; [|done].
  pose proof (Hpc _ _ Ht) as Hth. unfold pc_ok in Hth.
  destruct (pc th) as [| | |ptr|v|b|e] eqn:Hp.
  - (* taking the lock_guard *)
    destruct (symbol_mutex cfg) eqn:Hm; [done|]. injection Hstep as <-.
    assert (Hv0 : perform_all acts s0 = shared cfg).
    { apply (view_shared cfg _ t th);
        [by rewrite Hm | done | by right | by rewrite Hp | done]. }
    exists acts. split; [done|]. split; [done|].
    cbn [shared threads]. split.
    + right. split; [|done].
      apply (goto_no_insert None (threads cfg) t th AtFind); try done. by right.
    + unfold goto. rewrite (omap_insert_same promised _ t th); [done|done|].
      unfold promised; cbn [pc]. by rewrite Hp.
  - (* find *)
    injection Hstep as <-.
    assert (Hc : in_critical (pc th) = true) by (by rewrite Hp).
    assert (Hv0 : perform_all acts s0 = shared cfg).
    { apply (view_shared cfg _ t th);
        [done | done | by left | by rewrite Hp | done]. }
    destruct (symbol_map (shared cfg) !! arg th) as [second|] eqn:Hfind.
    + exists (acts ++ [Act_nppIsSymbolAvailable (arg th)]).
      split; [by rewrite host_changes_snoc, Hh, app_nil_r|].
      split; [by apply no_direct_load_snoc|].
      rewrite perform_all_snoc, answers_snoc, Hv0. cbn [perform answers_one].
      rewrite (nppIsSymbolAvailable_hit _ _ _ Hfind). cbn [fst snd shared threads].
      split.
      * right. split; [|done].
        apply (goto_no_insert (symbol_mutex cfg) (threads cfg) t th (AtReturn second)); try done.
        by left.
      * unfold goto.
        rewrite (omap_insert_new promised _ t th _
                   (arg th, Returned (negb (is_null second))) Ht).
        -- by apply Permutation_app_tail.
        -- unfold promised. by rewrite Hp.
        -- done.
    + exists acts. split; [done|]. split; [done|].
      cbn [shared threads]. split.
      * right. split; [|done].
        apply (goto_no_insert (symbol_mutex cfg) (threads cfg) t th AtLoad); try done. by left.
      * unfold goto. rewrite (omap_insert_same promised _ t th); [done|done|].
        unfold promised; cbn [pc]. by rewrite Hp.
  - (* the call of NppLoadSymbol *)
    assert (Hc : in_critical (pc th) = true) by (by rewrite Hp).
    assert (Hv0 : perform_all acts s0 = shared cfg).
    { apply (view_shared cfg _ t th);
        [done | done | by left | by rewrite Hp | done]. }
    pose proof (nppIsSymbolAvailable_miss _ _ Hth) as Hmiss.
    destruct (NppLoadSymbol (arg th) (shared cfg)) as [[ptr|e] s'];
      injection Hstep as <-;
      exists (acts ++ [Act_nppIsSymbolAvailable (arg th)]);
      (split; [by rewrite host_changes_snoc, Hh, app_nil_r|]);
      (split; [by apply no_direct_load_snoc|]);
      rewrite perform_all_snoc, answers_snoc, Hv0; cbn [perform answers_one];
      rewrite Hmiss; cbn [fst snd shared threads]; split.
    + left. exists t, {| arg := arg th; pc := AtInsert ptr |}, ptr.
      split; [by apply goto_lookup_same|]. by split.
    + unfold goto.
      rewrite (omap_insert_new promised _ t th _
                 (arg th, Returned (negb (is_null ptr))) Ht).
      * by apply Permutation_app_tail.
      * unfold promised. by rewrite Hp.
      * done.
    + right. split; [|done].
      apply (goto_no_insert (symbol_mutex cfg) (threads cfg) t th (Raised e)); try done. by left.
    + unfold goto.
      rewrite (omap_insert_new promised _ t th _ (arg th, Aborted e) Ht).
      * by apply Permutation_app_tail.
      * unfold promised. by rewrite Hp.
      * done.
  - (* insert *)
    injection Hstep as <-.
    assert (Hc : in_critical (pc th) = true) by (by rewrite Hp).
    pose proof (view_pending cfg _ t th ptr Hex Ht Hp Hv) as Hv0.
    exists acts. split; [done|]. split; [done|].
    cbn [shared threads]. split.
    + right. split; [|done].
      apply (goto_no_insert (symbol_mutex cfg) (threads cfg) t th (AtReturn ptr)); try done. by left.
    + unfold goto. rewrite (omap_insert_same promised _ t th); [done|done|].
      unfold promised; cbn [pc arg]. by rewrite Hp.
  - (* return *)
    injection Hstep as <-.
    assert (Hc : in_critical (pc th) = true) by (by rewrite Hp).
    assert (Hv0 : perform_all acts s0 = shared cfg).
    { apply (view_shared cfg _ t th);
        [done | done | by left | by rewrite Hp | done]. }
    exists acts. split; [done|]. split; [done|].
    cbn [shared threads]. split.
    + right. split; [|done].
      apply (goto_no_insert (symbol_mutex cfg) (threads cfg) t th (Done (negb (is_null v)))); try done.
      by left.
    + unfold goto. rewrite (omap_insert_same promised _ t th); [done|done|].
      unfold promised; cbn [pc arg]. by rewrite Hp.
  - done.
  - done.
Qed.

Lemma step_Lin (s0 : NppState) (hs : list (OS -> OS)) (a : Action) (cfg cfg' : Config) :
  Safe cfg -> Lin s0 hs cfg -> step a cfg = Some cfg' ->
  Lin s0 (hs ++ scheduled_changes [a]) cfg'.
Proof.
  destruct a as [t|change]; cbn [step].
  - intros HS HL Hstep.
    change (scheduled_changes [Run t]) with (@nil (OS -> OS)). rewrite app_nil_r.
    by eapply step_thread_Lin.
  - intros _ (acts & Hh & Hd & Hv & Ha) [= <-].
    exists (acts ++ [Act_host change]).
    split; [by rewrite host_changes_snoc, Hh|].
    split; [by apply no_direct_load_snoc|].
    rewrite perform_all_snoc, answers_snoc. cbn [answers_one threads].
    rewrite app_nil_r. split; [|done].
    destruct Hv as [(t & th & p & Ht & Hp & ->)|[Hnone ->]].
    + left. by exists t, th, p.
    + by right.
Qed.

Lemma exec_Lin (s0 : NppState) (hs : list (OS -> OS)) (sched : list Action)
    (cfg cfg' : Config) :
  Safe cfg -> Lin s0 hs cfg -> exec sched cfg = Some cfg' ->
  Lin s0 (hs ++ scheduled_changes sched) cfg'.
Proof.
  revert hs cfg. induction sched as [|a sched IH]; intros hs cfg HS HL; cbn [exec].
  - intros [= <-]. change (scheduled_changes []) with (@nil (OS -> OS)).
    by rewrite app_nil_r.
  - destruct (step a cfg) as [cfg1|] eqn:Hs; [|done]. intros Hexec.
    pose proof (IH _ _ (step_Safe _ _ _ HS Hs) (step_Lin _ _ _ _ _ HS HL Hs) Hexec)
      as HL'.
    change (a :: sched) with ([a] ++ sched).
    unfold scheduled_changes in *. by rewrite omap_app, app_assoc.
Qed.

Lemma start_Lin (s : NppState) (names : list string) : Lin s [] (start s names).
Proof.
  exists []. split; [done|]. split; [done|]. split.
  - right. split; [|done]. intros t th p Hl.
    cbn [start threads] in Hl. rewrite list_lookup_fmap in Hl.
    destruct (names !! t); [|done]. by injection Hl as <-.
  - cbn [answers start threads].
    induction names as [|n names IH]; [done|].
    cbn [fmap list_fmap]. rewrite omap_cons_eq. by cbn.
Qed.

Lemma answers_asked (acts : list Activity) (s : NppState) :
  fst <$> answers acts s = asked acts.
Proof.
  revert s. induction acts as [|a acts IH]; intros s; [done|].
  cbn [answers]. rewrite fmap_app, IH. unfold asked. rewrite omap_cons_eq.
  by destruct a.
Qed.

Lemma promised_when_left (ths : list Thread) :
  forallb has_left ths = true ->
  omap promised ths = omap answer_of ths /\ fst <$> omap answer_of ths = arg <$> ths.
Proof.
  induction ths as [|th ths IH]; [done|].
  cbn [forallb]. intros Hl. apply andb_true_iff in Hl as [Hth Hl].
  destruct (IH Hl) as [IH1 IH2].
  rewrite !omap_cons_eq, IH1. unfold promised, answer_of, has_left in *.
  destruct (pc th); try done; cbn; by rewrite IH2.
Qed.

(** X14.  Concurrent calls behave like calls made one after another.  For
    every run in which all threads have left the function there is a
    sequence of plain calls of [nppIsSymbolAvailable] - one per thread, with
    that thread's argument - interleaved with the run's changes of the host
    in their order, that from the same initial state ends in the run's final
    shared state and gives the threads' answers, booleans and exceptions
    alike. *)
Theorem concurrent_calls_are_linearizable
    (s : NppState) (names : list string) (sched : list Action) (cfg : Config) :
  exec sched (start s names) = Some cfg ->
  all_left cfg = true ->
  exists acts : list Activity,
    no_direct_load acts = true
    /\ host_changes acts = scheduled_changes sched
    /\ asked acts ≡ₚ names
    /\ perform_all acts s = shared cfg
    /\ answers acts s ≡ₚ omap answer_of (threads cfg).
Proof.
  intros Hexec Hleft.
  pose proof (exec_Lin s [] sched _ _ (start_Safe s names) (start_Lin s names) Hexec)
    as (acts & Hh & Hd & Hv & Ha).
  destruct (promised_when_left _ Hleft) as [Hp Hargs].
  rewrite Hp in Ha.
  exists acts. split; [done|]. split; [done|]. split; [|split; [|done]].
  - rewrite <- answers_asked with (s := s). rewrite Ha, Hargs.
    by rewrite (exec_args _ _ _ Hexec), start_args.
  - destruct Hv as [(t & th & p & Ht & Hpc & _)|[_ Hv]]; [|done].
    unfold all_left in Hleft. rewrite forallb_forall in Hleft.
    assert (Hin : In th (threads cfg))
      by (apply list_elem_of_In, list_elem_of_lookup; eauto).
    specialize (Hleft _ Hin). unfold has_left in Hleft. by rewrite Hpc in Hleft.
Qed.

End Resolver.

Arguments NppState : clear implicits.
Arguments Config : clear implicits.
Arguments Activity : clear implicits.
Arguments Action : clear implicits.

(** *** A host to run the resolver against

    The host is the list of shared libraries installed: file name, the
    handle [dlopen] gives for it, and the addresses of its symbols.  Neither
    primitive changes the host. *)
Record Library : Type := {
  file : string;
  base : pointer;
  exports : list (string * pointer)
}.

Definition sample_dlopen (filename : string) (flags : Z) (installed : list Library)
  : pointer * list Library :=
  (match List.find (fun l => String.eqb (file l) filename) installed with
   | Some l => base l
   | None => nullptr
   end, installed).

Definition sample_dlsym (h : pointer) (symbol : string) (installed : list Library)
  : pointer * list Library :=
  (match List.find (fun l => Z.eqb (base l) h) installed with
   | Some l =>
       match List.find (fun e => String.eqb e.1 symbol) (exports l) with
       | Some e => e.2
       | None => nullptr
       end
   | None => nullptr
   end, installed).

(** A CUDA 11 toolkit: both libraries under their versioned names. *)
Definition cuda11_host : list Library :=
  [ {| file := "libnppc.so.11"; base := 4096;
       exports := [("nppGetLibVersion", 4100)] |};
    {| file := "libnppicc.so.11"; base := 8192;
       exports := [("nppiYCbCrToRGB_8u_C3R", 8200)] |} ].

(** The NPP wheel without libnppicc. *)
Definition nppc_only_host : list Library :=
  [ {| file := "libnppc.so"; base := 4096;
       exports := [("nppGetLibVersion", 4100)] |} ].

(** The process before any use of the resolver. *)
Definition boot (installed : list Library) : NppState (list Library) :=
  {| os := installed; nppcDrvLib := None; nppiccDrvLib := None;
     symbol_map := ∅; dl_calls := [] |}.

Definition available : string -> Npp bool :=
  nppIsSymbolAvailable 11080 sample_dlopen sample_dlsym.

Example first_use_on_cuda11 :
  let out := available "nppiYCbCrToRGB_8u_C3R" (boot cuda11_host) in
  out.1 = Returned true
  /\ dl_calls out.2 =
       [Call_dlopen "libnppc.so.11" RTLD_NOW; Call_dlopen "libnppicc.so.11" RTLD_NOW;
        Call_dlsym 8192 "nppiYCbCrToRGB_8u_C3R"]
  /\ symbol_map out.2 !! "nppiYCbCrToRGB_8u_C3R" = Some 8200.
Proof. vm_compute. by repeat split. Qed.

Example first_use_without_nppicc :
  let out := available "nppGetLibVersion" (boot nppc_only_host) in
  out.1 = Aborted nppicc_error
  /\ dl_calls out.2 =
       [Call_dlopen "libnppc.so.11" RTLD_NOW; Call_dlopen "libnppc.so" RTLD_NOW;
        Call_dlopen "libnppicc.so.11" RTLD_NOW; Call_dlopen "libnppicc.so" RTLD_NOW]
  /\ nppcDrvLib out.2 = Some 4096 /\ nppiccDrvLib out.2 = None.
Proof. vm_compute. by repeat split. Qed.

Lemma NppLoadSymbol_looks_in_nppicc_then_nppc_witness :
  let load := NppLoadSymbol 11080 sample_dlopen sample_dlsym in
  (load "nppGetLibVersion" (boot cuda11_host)).1 = Returned 4100
  /\ dl_calls (load "nppGetLibVersion" (boot cuda11_host)).2 =
       [Call_dlopen "libnppc.so.11" RTLD_NOW; Call_dlopen "libnppicc.so.11" RTLD_NOW;
        Call_dlsym 8192 "nppGetLibVersion"; Call_dlsym 4096 "nppGetLibVersion"]
  /\ (load "nppiYCbCrToRGB_8u_C3R" (boot cuda11_host)).1 = Returned 8200
  /\ (load "nppiNoSuchSymbol" (boot cuda11_host)).1 = Returned nullptr.
Proof.
  cbv zeta.
  destruct (NppLoadSymbol_looks_in_nppicc_then_nppc 11080 sample_dlopen sample_dlsym
              "nppGetLibVersion" (boot cuda11_host) eq_refl eq_refl) as (H1 & H2 & _).
  destruct (NppLoadSymbol_looks_in_nppicc_then_nppc 11080 sample_dlopen sample_dlsym
              "nppiYCbCrToRGB_8u_C3R" (boot cuda11_host) eq_refl eq_refl) as (H3 & _).
  destruct (NppLoadSymbol_looks_in_nppicc_then_nppc 11080 sample_dlopen sample_dlsym
              "nppiNoSuchSymbol" (boot cuda11_host) eq_refl eq_refl) as (_ & _ & H4).
  split; [exact H1|]. split; [exact H2|]. split; [exact H3|].
  exact (H4 eq_refl eq_refl).
Defined.

Lemma missing_library_is_fatal_missing_symbol_is_not_witness :
  (available "nppiNoSuchSymbol" (boot cuda11_host)).1 = Returned false
  /\ (available "nppiNoSuchSymbol" (boot [])).1 = Aborted nppc_error
  /\ (available "nppiNoSuchSymbol" (boot nppc_only_host)).1 = Aborted nppicc_error.
Proof.
  pose proof (missing_library_is_fatal_missing_symbol_is_not 11080 sample_dlopen
                sample_dlsym "nppiNoSuchSymbol" (boot cuda11_host) eq_refl) as H1.
  pose proof (missing_library_is_fatal_missing_symbol_is_not 11080 sample_dlopen
                sample_dlsym "nppiNoSuchSymbol" (boot []) eq_refl) as H2.
  pose proof (missing_library_is_fatal_missing_symbol_is_not 11080 sample_dlopen
                sample_dlsym "nppiNoSuchSymbol" (boot nppc_only_host) eq_refl) as H3.
  cbv zeta in H1, H2, H3.
  destruct H1 as (_ & _ & _ & _ & H1). destruct (H1 eq_refl eq_refl) as [_ H1'].
  destruct H2 as (_ & _ & H2 & _). destruct (H2 eq_refl eq_refl) as [H2' _].
  destruct H3 as (_ & _ & _ & H3 & _). destruct (H3 eq_refl eq_refl eq_refl) as [H3' _].
  split; [exact (H1' eq_refl eq_refl)|]. split; [exact H2'|exact H3'].
Defined.

(** The libraries are uninstalled after the first call, other names are
    asked for and fail: the answer for the first name stays. *)
Lemma nppIsSymbolAvailable_answers_from_cache_witness :
  let s1 := (available "nppGetLibVersion" (boot cuda11_host)).2 in
  let between :=
    [Act_host (fun _ : list Library => []);
     Act_nppIsSymbolAvailable "nppiYCbCrToRGB_8u_C3R";
     Act_NppLoadSymbol "nppGetLibVersion"] in
  let s2 := perform_all 11080 sample_dlopen sample_dlsym between s1 in
  available "nppGetLibVersion" s2 = (Returned true, s2)
  /\ (available "nppiYCbCrToRGB_8u_C3R" s2).1 = Returned false.
Proof.
  cbv zeta. split; [|by vm_compute].
  apply (nppIsSymbolAvailable_answers_from_cache 11080 sample_dlopen sample_dlsym
           "nppGetLibVersion" (boot cuda11_host)
           (available "nppGetLibVersion" (boot cuda11_host)).2 true).
  reflexivity.
Defined.

(** Three threads ask for the same name; thread 1 gets the mutex first and
    the host changes while it holds it. *)
Definition three_callers : Config (list Library) :=
  start (boot cuda11_host) ["nppGetLibVersion"; "nppGetLibVersion"; "nppGetLibVersion"].

Definition a_schedule : list (Action (list Library)) :=
  [Run 1; Run 1; Run 1; Host (fun _ => []); Run 1; Run 1;
   Run 2; Run 2; Run 2; Run 0; Run 0; Run 0].

Lemma concurrent_calls_resolve_once_when_all_return_witness :
  exists cfg,
    exec 11080 sample_dlopen sample_dlsym a_schedule three_callers = Some cfg
    /\ all_left cfg = true
    /\ times "nppGetLibVersion" (resolutions cfg) = 1%nat
    /\ exists b, forall th, th ∈ threads cfg -> arg th = "nppGetLibVersion" -> pc th = Done b.
Proof.
  eexists. split; [by vm_compute|]. split; [by vm_compute|].
  apply (concurrent_calls_resolve_once_when_all_return 11080 sample_dlopen sample_dlsym
           "nppGetLibVersion" (boot cuda11_host)
           ["nppGetLibVersion"; "nppGetLibVersion"; "nppGetLibVersion"]
           a_schedule).
  - reflexivity.
  - by left.
  - by vm_compute.
  - by vm_compute.
Defined.

(** C5, as stated, fails when a library cannot be opened: each of two
    threads calls [NppLoadSymbol], each call throws, nothing is cached and
    no thread gets a boolean. *)
Lemma concurrent_calls_resolve_twice_when_library_missing :
  let callers := start (boot []) ["nppGetLibVersion"; "nppGetLibVersion"] in
  symbol_map (shared callers) !! "nppGetLibVersion" = None
  /\ exists cfg,
       exec 11080 sample_dlopen sample_dlsym [Run 0; Run 0; Run 0; Run 1; Run 1; Run 1]
         callers = Some cfg
       /\ all_left cfg = true
       /\ times "nppGetLibVersion" (resolutions cfg) = 2%nat
       /\ threads cfg = [ {| arg := "nppGetLibVersion"; pc := Raised nppc_error |};
                          {| arg := "nppGetLibVersion"; pc := Raised nppc_error |} ].
Proof.
  cbv zeta. split; [reflexivity|]. eexists. split; [by vm_compute|]. by vm_compute.
Defined.

(** The process after a first successful use on the CUDA 11 host: both
    libraries loaded, one name cached. *)
Definition warm : NppState (list Library) :=
  (available "nppGetLibVersion" (boot cuda11_host)).2.

Lemma library_statics_never_hold_null_witness :
  let acts := [Act_nppIsSymbolAvailable "nppGetLibVersion";
               Act_host (fun _ : list Library => cuda11_host);
               Act_NppLoadSymbol "nppiYCbCrToRGB_8u_C3R"] in
  statics_ok (perform_all 11080 sample_dlopen sample_dlsym acts (boot nppc_only_host)).
Proof.
  cbv zeta.
  refine (proj1 (library_statics_never_hold_null 11080 sample_dlopen sample_dlsym
                   (boot nppc_only_host) _ _)).
  split; reflexivity.
Defined.

Lemma loaded_libraries_are_never_reopened_witness :
  let acts := [Act_host (fun _ : list Library => []);
               Act_nppIsSymbolAvailable "nppiYCbCrToRGB_8u_C3R";
               Act_NppLoadSymbol "nppGetLibVersion"] in
  let s' := perform_all 11080 sample_dlopen sample_dlsym acts warm in
  loaded 4096 8192 s'
  /\ (available "nppiNoSuchSymbol" s').1 = Returned false.
Proof.
  cbv zeta.
  destruct (loaded_libraries_are_never_reopened 11080 sample_dlopen sample_dlsym
              4096 8192 warm
              [Act_host (fun _ : list Library => []);
               Act_nppIsSymbolAvailable "nppiYCbCrToRGB_8u_C3R";
               Act_NppLoadSymbol "nppGetLibVersion"])
    as (Hl & _ & _).
  - by repeat split.
  - split; [exact Hl|]. by vm_compute.
Defined.

Lemma throwing_call_caches_nothing_and_keeps_libnppc_witness :
  let out := available "nppGetLibVersion" (boot nppc_only_host) in
  out.1 = Aborted nppicc_error
  /\ symbol_map out.2 = symbol_map (boot nppc_only_host)
  /\ nppiccDrvLib out.2 = None
  /\ exists c, nppcDrvLib out.2 = Some c /\ is_null c = false.
Proof.
  cbv zeta. split; [reflexivity|].
  destruct (throwing_call_caches_nothing_and_keeps_libnppc 11080 sample_dlopen
              sample_dlsym "nppGetLibVersion" (boot nppc_only_host)
              (available "nppGetLibVersion" (boot nppc_only_host)).2 nppicc_error)
    as (Hmap & [(Habs & _)|(_ & Hicc & Hc)]).
  - split; reflexivity.
  - reflexivity.
  - discriminate Habs.
  - split; [exact Hmap|]. split; [exact Hicc|exact Hc].
Defined.

Lemma cache_holds_exactly_the_names_asked_witness :
  let acts := [Act_nppIsSymbolAvailable "nppiNoSuchSymbol";
               Act_NppLoadSymbol "nppiOnlyLoaded";
               Act_nppIsSymbolAvailable "nppGetLibVersion"] in
  dom (symbol_map (perform_all 11080 sample_dlopen sample_dlsym acts warm))
  = dom (symbol_map warm) ∪ list_to_set ["nppiNoSuchSymbol"; "nppGetLibVersion"].
Proof.
  cbv zeta.
  apply (cache_holds_exactly_the_names_asked 11080 sample_dlopen sample_dlsym
           4096 8192 warm).
  by repeat split.
Defined.

Lemma symbol_mutex_admits_one_thread_witness :
  exists cfg,
    exec 11080 sample_dlopen sample_dlsym [Run 1; Run 1] three_callers = Some cfg
    /\ symbol_mutex cfg = Some 1%nat
    /\ forall t' th', t' <> 1%nat -> threads cfg !! t' = Some th' ->
         in_critical (pc th') = false.
Proof.
  eexists. split; [by vm_compute|].
  apply (symbol_mutex_admits_one_thread 11080 sample_dlopen sample_dlsym
           (boot cuda11_host)
           ["nppGetLibVersion"; "nppGetLibVersion"; "nppGetLibVersion"]
           [Run 1; Run 1] _ 1 {| arg := "nppGetLibVersion"; pc := AtLoad |});
    by vm_compute.
Defined.

Lemma runs_are_bounded_and_never_stuck_witness :
  exists cfg,
    exec 11080 sample_dlopen sample_dlsym [Run 1; Run 1; Run 1] three_callers = Some cfg
    /\ exists sched' cfg',
         exec 11080 sample_dlopen sample_dlsym sched' cfg = Some cfg'
         /\ all_left cfg' = true /\ symbol_mutex cfg' = None.
Proof.
  eexists. split; [by vm_compute|].
  refine (proj2 (runs_are_bounded_and_never_stuck 11080 sample_dlopen sample_dlsym
                   (boot cuda11_host)
                   ["nppGetLibVersion"; "nppGetLibVersion"; "nppGetLibVersion"]
                   [Run 1; Run 1; Run 1] _ _)).
  by vm_compute.
Defined.

(** The first caller finds no library and throws; the toolkit is installed
    before the second caller gets the mutex. *)
Definition late_install : list (Action (list Library)) :=
  [Run 0; Run 0; Run 0; Host (fun _ => cuda11_host); Run 1; Run 1; Run 1; Run 1; Run 1].

Definition two_callers : Config (list Library) :=
  start (boot []) ["nppGetLibVersion"; "nppGetLibVersion"].

Lemma resolutions_are_one_per_throw_and_one_for_the_rest_witness :
  exists cfg,
    exec 11080 sample_dlopen sample_dlsym late_install two_callers = Some cfg
    /\ threads cfg = [ {| arg := "nppGetLibVersion"; pc := Raised nppc_error |};
                       {| arg := "nppGetLibVersion"; pc := Done true |} ]
    /\ times "nppGetLibVersion" (resolutions cfg)
       = (thrown "nppGetLibVersion" cfg
          + cached "nppGetLibVersion" (symbol_map (shared cfg)))%nat
    /\ times "nppGetLibVersion" (resolutions cfg) = 2%nat.
Proof.
  eexists. split; [by vm_compute|]. split; [reflexivity|].
  split; [|by vm_compute].
  refine (proj1 (resolutions_are_one_per_throw_and_one_for_the_rest 11080
                   sample_dlopen sample_dlsym "nppGetLibVersion" (boot [])
                   ["nppGetLibVersion"; "nppGetLibVersion"] late_install _ _ _ _)).
  - reflexivity.
  - by vm_compute.
  - by vm_compute.
Defined.

Lemma concurrent_calls_are_linearizable_witness :
  exists cfg,
    exec 11080 sample_dlopen sample_dlsym late_install two_callers = Some cfg
    /\ exists acts,
         no_direct_load acts = true
         /\ host_changes acts = scheduled_changes late_install
         /\ asked acts ≡ₚ ["nppGetLibVersion"; "nppGetLibVersion"]
         /\ perform_all 11080 sample_dlopen sample_dlsym acts (boot []) = shared cfg
         /\ answers 11080 sample_dlopen sample_dlsym acts (boot [])
            ≡ₚ omap answer_of (threads cfg).
Proof.
  eexists. split; [by vm_compute|].
  apply (concurrent_calls_are_linearizable 11080 sample_dlopen sample_dlsym
           (boot []) ["nppGetLibVersion"; "nppGetLibVersion"] late_install).
  - by vm_compute.
  - by vm_compute.
Defined.

End NppWrap.
